(** * AidanBench leaderboard: the metrics aggregation engine of [src/App.js]

    The development embeds the pure core of the React component [App]:
    the memoised computation [modelsMetrics] (filtering, accumulation,
    formatting and ranking), the scaling baseline [bestTotal], the bar
    [ratio] of a table row and the drill-down lookup
    [selectedModelDetail].  Around the core it embeds the question index
    [uniqueQuestions], the state of the component with its handlers, the
    colour and the gradient of a table row, the data of a chart and the
    order in which the drill-down object is enumerated.

    Modelling conventions.
    - A JavaScript number is an IEEE 754 binary64 value, represented by
      [spec_float] at precision 53 and maximal exponent 1024.  Sums use the
      library's correctly rounded [SFadd].  The built-ins that the source
      calls on numbers ([Math.round], [Number.prototype.toFixed],
      [Number.prototype.toString], [parseFloat]) follow ECMA-262 on the
      exact rational value of their argument; the Number value for a
      rational is [round_ratio].
    - A JSON object that the source enumerates with [Object.entries] is
      the list of its entries in enumeration order; its keys are pairwise
      distinct ([wf_dataset]).
    - The object [filteredData], which the source builds by assignment and
      reads by key, is a finite map.  Keys are data identifiers (question
      texts, parameter labels): none of them is the name of a member that
      a fresh object inherits from [Object.prototype], so that
      [!filteredData[paramKey]] holds exactly when [paramKey] has not been
      assigned yet.
    - [totalResponses] counts array elements; it stays far below 2^53,
      where the increments of a binary64 counter are exact, and is a
      natural number here.
    - [Array.prototype.sort] is stable (ECMAScript 2019); with a consistent
      comparison function its result is determined, and is computed here by
      insertion.
    - A [Set] is the list of its values in insertion order, without
      repetition.
    - The state of the component is the record of its three [useState]
      cells; a handler is a function on states, and what a render shows is
      a function of the state.
    - Texts are sequences of ASCII characters, as the identifiers of the
      data file are. *)

From Stdlib Require Import ZArith String Ascii List Lia Decimal DecimalString.
From Stdlib Require Import Floats.SpecFloat.
From stdpp Require Import gmap strings list fin_maps sorting.

#[local] Open Scope Z_scope.

(** ** JavaScript numbers *)

Module Num.

Definition prec : Z := 53.
Definition emax : Z := 1024.

Definition number : Type := spec_float.

Definition zero : number := S754_zero false.
Definition NaN : number := S754_nan.

Definition add : number -> number -> number := SFadd prec emax.
Definition mul : number -> number -> number := SFmul prec emax.
Definition div : number -> number -> number := SFdiv prec emax.

(** *** Exact values and rounding *)

(** The real value [m * 2^e] of a finite number as a fraction of two
    positive integers. *)
Definition fraction (m : positive) (e : Z) : Z * Z :=
  (Zpos m * 2 ^ Z.max 0 e, 2 ^ Z.max 0 (- e)).

(** The integer nearest to [a / b], the even one on a tie. *)
Definition nearest_even (a b : Z) : Z :=
  match 2 * (a mod b) ?= b with
  | Lt => a / b
  | Eq => if Z.even (a / b) then a / b else a / b + 1
  | Gt => a / b + 1
  end.

(** The Number value for the positive rational [a / b]: the binary64 value
    nearest to it, the one with an even mantissa on a tie.  The exponent
    [e] is the one at which the quotient has 53 bits, and not less than the
    exponent of the subnormal values; a mantissa that rounds up to [2^53]
    moves to the next exponent; beyond the largest exponent the value is
    infinite. *)
Definition round_ratio (a b : Z) : number :=
  let e0 := Z.log2 a - Z.log2 b - 53 in
  let e1 :=
    if a * 2 ^ Z.max 0 (- e0) / (b * 2 ^ Z.max 0 e0) <? 2 ^ 53
    then e0 else e0 + 1 in
  let e := Z.max e1 (-1074) in
  let m := nearest_even (a * 2 ^ Z.max 0 (- e)) (b * 2 ^ Z.max 0 e) in
  let '(m, e) := if m =? 2 ^ 53 then (2 ^ 52, e + 1) else (m, e) in
  match m with
  | Zpos p => if e <=? 971 then S754_finite false p e else S754_infinity false
  | _ => S754_zero false
  end.

(** The Number value for an integer. *)
Definition of_Z (z : Z) : number :=
  match z with
  | Z0 => zero
  | Zpos _ => round_ratio z 1
  | Zneg _ => SFopp (round_ratio (- z) 1)
  end.

Definition of_nat (n : nat) : number := of_Z (Z.of_nat n).

(** The Number value for [c * 10 ^ e10], for [0 <= c]: the rounding that
    a decimal literal goes through. *)
Definition of_decimal (c e10 : Z) : number :=
  if c <=? 0 then zero
  else round_ratio (c * 10 ^ Z.max 0 e10) (10 ^ Z.max 0 (- e10)).

(** Equality of the real values of two numbers, whatever the mantissa and
    exponent that represent them. *)
Definition same_value (x y : number) : bool :=
  match x, y with
  | S754_finite sx mx ex, S754_finite sy my ey =>
      let '(px, qx) := fraction mx ex in
      let '(py, qy) := fraction my ey in
      Bool.eqb sx sy && (px * qy =? py * qx)
  | S754_zero _, S754_zero _ => true
  | S754_infinity sx, S754_infinity sy => Bool.eqb sx sy
  | _, _ => false
  end.

(** *** Decimal digits *)

Definition digit_char (d : Z) : ascii := ascii_of_nat (48 + Z.to_nat d).

Fixpoint digits_fuel (fuel : nat) (n : Z) : string :=
  match fuel with
  | O => EmptyString
  | S fuel' =>
      (if n <? 10 then EmptyString else digits_fuel fuel' (n / 10))
      +:+ String (digit_char (n mod 10)) EmptyString
  end.

(** The decimal digits of a natural number, the most significant first. *)
Definition digits_of (n : Z) : string :=
  digits_fuel (S (Z.to_nat (Z.log2 n))) n.

Fixpoint zeros (n : nat) : string :=
  match n with
  | O => EmptyString
  | S n' => String "0" (zeros n')
  end.

Fixpoint string_take (n : nat) (s : string) : string :=
  match n, s with
  | S n', String c s' => String c (string_take n' s')
  | _, _ => EmptyString
  end.

Fixpoint string_drop (n : nat) (s : string) : string :=
  match n, s with
  | S n', String _ s' => string_drop n' s'
  | _, _ => s
  end.

(** [floor (m * 2^e / 10^j)] and whether the quotient is below, at or
    above the half of the next unit. *)
Definition scaled (m : positive) (e j : Z) : Z * comparison :=
  let '(p, q) := fraction m e in
  let num := p * 10 ^ Z.max 0 (- j) in
  let den := q * 10 ^ Z.max 0 j in
  (num / den, 2 * (num mod den) ?= den).

(** The decimal exponent [n] of a positive value: [10^(n-1) <= m * 2^e <
    10^n]. *)
Fixpoint first_unit (fuel : nat) (m : positive) (e j : Z) : Z :=
  match fuel with
  | O => j
  | S fuel' =>
      if 1 <=? fst (scaled m e j) then j else first_unit fuel' m e (j - 1)
  end.

Definition dec_exponent (m : positive) (e : Z) : Z :=
  let whole := fst (scaled m e 0) in
  if 1 <=? whole then Z.of_nat (String.length (digits_of whole))
  else first_unit 400 m e (-1) + 1.

(** *** Number::toString (ECMA-262, radix 10) *)

(** The [k]-digit decimals [c * 10^(n - k)] that read back as [x = m * 2^e]:
    of the two multiples of the unit around [x], those that round to [x];
    when both do, the one nearer to [x], and the even one on a tie. *)
Definition candidate (m : positive) (e nx k : Z) : option Z :=
  let j := nx - k in
  let x := S754_finite false m e in
  let '(lo, half) := scaled m e j in
  let hi := lo + 1 in
  match same_value (of_decimal lo j) x, same_value (of_decimal hi j) x with
  | true, true =>
      Some match half with
           | Lt => lo
           | Gt => hi
           | Eq => if Z.even lo then lo else hi
           end
  | true, false => Some lo
  | false, true => Some hi
  | false, false => None
  end.

(** The least number of digits with a candidate; seventeen digits always
    identify a binary64 value. *)
Fixpoint shortest_from (fuel : nat) (m : positive) (e nx k : Z) : Z * Z :=
  match fuel with
  | O => (fst (scaled m e (nx - k)), k)
  | S fuel' =>
      match candidate m e nx k with
      | Some c => (c, k)
      | None => shortest_from fuel' m e nx (k + 1)
      end
  end.

Fixpoint strip10 (fuel : nat) (c : Z) : Z :=
  match fuel with
  | O => c
  | S fuel' => if (0 <? c) && (c mod 10 =? 0) then strip10 fuel' (c / 10) else c
  end.

(** The digits [s] and the exponent [n] of the specification: the value
    printed is [0.s * 10^n]. *)
Definition shortest (m : positive) (e : Z) : string * Z :=
  let nx := dec_exponent m e in
  let '(c, k) := shortest_from 17 m e nx 1 in
  (digits_of (strip10 20 c), if c =? 10 ^ k then nx + 1 else nx).

Definition toString_pos (m : positive) (e : Z) : string :=
  let '(s, n) := shortest m e in
  let k := Z.of_nat (String.length s) in
  if (k <=? n) && (n <=? 21) then
    s +:+ zeros (Z.to_nat (n - k))
  else if (0 <? n) && (n <=? 21) then
    string_take (Z.to_nat n) s +:+ "." +:+ string_drop (Z.to_nat n) s
  else if (-6 <? n) && (n <=? 0) then
    "0." +:+ zeros (Z.to_nat (- n)) +:+ s
  else
    let ex := n - 1 in
    let sg := if 0 <=? ex then "+" else "-" in
    if k =? 1 then s +:+ "e" +:+ sg +:+ digits_of (Z.abs ex)
    else string_take 1 s +:+ "." +:+ string_drop 1 s
         +:+ "e" +:+ sg +:+ digits_of (Z.abs ex).

Definition toString (x : number) : string :=
  match x with
  | S754_nan => "NaN"
  | S754_zero _ => "0"
  | S754_infinity s => if s then "-Infinity" else "Infinity"
  | S754_finite s m e =>
      (if s then "-" else "") +:+ toString_pos m e
  end.

(** *** Math.round *)

(** The integer nearest to a value, the larger one on a tie:
    [floor (x + 1/2)]. *)
Definition round_half_up (s : bool) (m : positive) (e : Z) : Z :=
  let '(p, q) := fraction m e in
  (2 * (if s then - p else p) + q) / (2 * q).

(** A result of zero keeps the sign of the argument. *)
Definition Math_round (x : number) : number :=
  match x with
  | S754_finite s m e =>
      let r := round_half_up s m e in
      if r =? 0 then S754_zero s else of_Z r
  | _ => x
  end.

(** *** Number.prototype.toFixed *)

(** The integer [n] with [n / 10^f] nearest to [m * 2^e], the larger one
    on a tie. *)
Definition fixed_digits (m : positive) (e : Z) (f : nat) : Z :=
  let '(p, q) := fraction m e in
  (2 * p * 10 ^ Z.of_nat f + q) / (2 * q).

(** Steps 9 to 11: the digits of [n], padded on the left to [f + 1]
    digits, with the point before the last [f] of them. *)
Definition fixed_string (n : Z) (f : nat) : string :=
  let ms := digits_of n in
  match f with
  | O => ms
  | _ =>
      let k := String.length ms in
      let ms := if (k <=? f)%nat then zeros (f + 1 - k) +:+ ms else ms in
      let k := String.length ms in
      string_take (k - f) ms +:+ "." +:+ string_drop (k - f) ms
  end.

Definition at_least_1e21 (m : positive) (e : Z) : bool :=
  let '(p, q) := fraction m e in 10 ^ 21 * q <=? p.

Definition toFixed (x : number) (f : nat) : string :=
  match x with
  | S754_finite s m e =>
      (if s then "-" else "") +:+
      (if at_least_1e21 m e then toString_pos m e
       else fixed_string (fixed_digits m e f) f)
  | S754_zero _ => fixed_string 0 f
  | _ => toString x
  end.

(** *** parseFloat *)

Definition is_digit (c : ascii) : bool :=
  let n := nat_of_ascii c in ((48 <=? n) && (n <=? 57))%nat.

Definition is_space (c : ascii) : bool :=
  let n := nat_of_ascii c in
  ((n =? 32) || ((9 <=? n) && (n <=? 13)))%nat.

Fixpoint skip_spaces (s : string) : string :=
  match s with
  | String c s' => if is_space c then skip_spaces s' else s
  | EmptyString => s
  end.

Fixpoint span_digits (s : string) : string * string :=
  match s with
  | String c s' =>
      if is_digit c then
        let '(ds, rest) := span_digits s' in (String c ds, rest)
      else (EmptyString, s)
  | EmptyString => (EmptyString, EmptyString)
  end.

Fixpoint digits_value (acc : Z) (s : string) : Z :=
  match s with
  | String c s' => digits_value (10 * acc + (Z.of_nat (nat_of_ascii c) - 48)) s'
  | EmptyString => acc
  end.

(** The exponent part [e], [e+] or [e-] followed by digits, when the text
    starts with one; otherwise the exponent is zero. *)
Definition exponent_part (s : string) : Z :=
  match s with
  | String c s' =>
      if Ascii.eqb c "e" || Ascii.eqb c "E" then
        match s' with
        | String "+" s'' =>
            match span_digits s'' with
            | (EmptyString, _) => 0
            | (ds, _) => digits_value 0 ds
            end
        | String "-" s'' =>
            match span_digits s'' with
            | (EmptyString, _) => 0
            | (ds, _) => - digits_value 0 ds
            end
        | _ =>
            match span_digits s' with
            | (EmptyString, _) => 0
            | (ds, _) => digits_value 0 ds
            end
        end
      else 0
  | EmptyString => 0
  end.

Definition signed (neg : bool) (x : number) : number :=
  if neg then SFopp x else x.

(** The longest prefix that is a decimal literal, rounded to binary64;
    [NaN] when there is none. *)
Definition parse_unsigned (neg : bool) (s : string) : number :=
  if String.prefix "Infinity" s then S754_infinity neg
  else
    let '(ip, rest) := span_digits s in
    let '(fp, rest) :=
      match rest with
      | String "." rest' => span_digits rest'
      | _ => (EmptyString, rest)
      end in
    match ip, fp with
    | EmptyString, EmptyString => NaN
    | _, _ =>
        let c := digits_value 0 (ip +:+ fp) in
        let e10 := exponent_part rest - Z.of_nat (String.length fp) in
        if c =? 0 then S754_zero neg else signed neg (of_decimal c e10)
    end.

Definition parseFloat (s : string) : number :=
  match skip_spaces s with
  | String "-" s' => parse_unsigned true s'
  | String "+" s' => parse_unsigned false s'
  | s' => parse_unsigned false s'
  end.

(** A decimal literal of the data file, [c * 10^e10] with its sign. *)
Definition literal (neg : bool) (c e10 : Z) : number :=
  if c =? 0 then S754_zero neg else signed neg (of_decimal c e10).

End Num.

(** ** The formatting policy in its own words *)

(** The integer nearest to a number, the larger one on a tie. *)
Definition nearest_integer (x : Num.number) : option Z :=
  match x with
  | S754_zero _ => Some 0
  | S754_finite s m e => Some (Num.round_half_up s m e)
  | _ => None
  end.

(** An integer as a string with no decimal point: its decimal digits, after
    a minus sign when it is negative. *)
Definition render_integer (r : Z) : string :=
  (if r <? 0 then "-" else "") +:+ Num.digits_of (Z.abs r).

(** The number of tenths nearest to a number, the one of larger magnitude
    on a tie: the number rounded to one decimal place is this many
    tenths. *)
Definition nearest_tenths (x : Num.number) : option Z :=
  match x with
  | S754_zero _ => Some 0
  | S754_finite s m e => Some ((if s then -1 else 1) * Num.fixed_digits m e 1)
  | _ => None
  end.

(** A number of tenths as a string with one decimal, and with none when
    the decimal is zero: 20 tenths render as 2, 25 tenths as 2.5. *)
Definition render_tenths (t : Z) : string :=
  (if t <? 0 then "-" else "")
  +:+ Num.digits_of (Z.abs t / 10)
  +:+ (if Z.abs t mod 10 =? 0 then ""
       else "." +:+ String (Num.digit_char (Z.abs t mod 10)) "").

(** A string of decimal digits. *)
Fixpoint all_digits (s : string) : bool :=
  match s with
  | EmptyString => true
  | String c s' => Num.is_digit c && all_digits s'
  end.

#[local] Open Scope nat_scope.

(** ** The data model *)

(** One scored answer of a model to a question. *)
Record Response : Type := {
  answer_num : Z;
  answer : string;
  coherence_score : Num.number;
  embedding_dissimilarity_score : Num.number
}.

(** [sampleData.models] as [Object.entries] enumerates it: model, then
    parameter configuration, then question, then the answers in order. *)
Definition Questions : Type := list (string * list Response).
Definition Params : Type := list (string * Questions).
Definition Models : Type := list (string * Params).

(** The entries of an object have pairwise distinct keys. *)
Definition distinct_keys {V : Type} (entries : list (string * V)) : Prop :=
  NoDup (entries.*1).

Definition wf_params (params : Params) : Prop :=
  distinct_keys params /\ Forall (fun entry => distinct_keys entry.2) params.

Definition wf_dataset (models : Models) : Prop :=
  distinct_keys models /\ Forall (fun entry => wf_params entry.2) models.

#[global] Instance wf_params_dec (params : Params) : Decision (wf_params params).
Proof. unfold wf_params, distinct_keys. apply _. Defined.

#[global] Instance wf_dataset_dec (models : Models) : Decision (wf_dataset models).
Proof. unfold wf_dataset, distinct_keys. apply _. Defined.

(** The drill-down data of a model: configuration, then question. *)
Abbreviation FilteredData := (gmap string (gmap string (list Response))).

Record ModelSummary : Type := {
  modelName : string;
  totalResponses : nat;
  totalCoherence : string;
  totalDissimilarity : string;
  filteredData : FilteredData
}.

(** ** The aggregation engine: [modelsMetrics] *)

(** The variables that the body of the loop over models declares with
    [let] and updates while it visits the parameters and questions. *)
Record LoopState : Type := {
  st_totalResponses : nat;
  st_sumCoherence : Num.number;
  st_sumDissimilarity : Num.number;
  st_filteredData : FilteredData
}.

Definition initial : LoopState :=
  {| st_totalResponses := 0;
     st_sumCoherence := Num.zero;
     st_sumDissimilarity := Num.zero;
     st_filteredData := ∅ |}.

(** [selectedQuestions.length === 0 || selectedQuestions.includes(question)] *)
Definition matches (selectedQuestions : list string) (question : string) : bool :=
  (length selectedQuestions =? 0) || bool_decide (question ∈ selectedQuestions).

(** [if (!filteredData[paramKey]) filteredData[paramKey] = {};
     filteredData[paramKey][question] = responses;] *)
Definition store (paramKey question : string) (responses : list Response)
    (fd : FilteredData) : FilteredData :=
  let fd :=
    match fd !! paramKey with
    | None => <[paramKey := ∅]> fd
    | Some _ => fd
    end in
  alter (insert question responses) paramKey fd.

(** The callback of [responses.forEach]. *)
Definition count_response (st : LoopState) (resp : Response) : LoopState :=
  {| st_totalResponses := S (st_totalResponses st);
     st_sumCoherence := Num.add (st_sumCoherence st) (coherence_score resp);
     st_sumDissimilarity :=
       Num.add (st_sumDissimilarity st) (embedding_dissimilarity_score resp);
     st_filteredData := st_filteredData st |}.

(** The body of the loop over the questions of one configuration. *)
Definition visit_question (selectedQuestions : list string) (paramKey : string)
    (st : LoopState) (entry : string * list Response) : LoopState :=
  let '(question, responses) := entry in
  if matches selectedQuestions question then
    foldl count_response
      {| st_totalResponses := st_totalResponses st;
         st_sumCoherence := st_sumCoherence st;
         st_sumDissimilarity := st_sumDissimilarity st;
         st_filteredData := store paramKey question responses (st_filteredData st) |}
      responses
  else st.

(** The body of the loop over the configurations of one model. *)
Definition visit_param (selectedQuestions : list string)
    (st : LoopState) (entry : string * Questions) : LoopState :=
  let '(paramKey, questions) := entry in
  foldl (visit_question selectedQuestions paramKey) st questions.

(** The record that one iteration of the loop over models pushes. *)
Definition summarize (selectedQuestions : list string)
    (entry : string * Params) : ModelSummary :=
  let '(name, params) := entry in
  let st := foldl (visit_param selectedQuestions) initial params in
  let totalCoherenceStr :=
    if 0 <? st_totalResponses st
    then Num.toString (Num.Math_round (st_sumCoherence st))
    else "0"%string in
  let totalDissimilarityStr :=
    if 0 <? st_totalResponses st
    then Num.toString (Num.parseFloat (Num.toFixed (st_sumDissimilarity st) 1))
    else "0"%string in
  {| modelName := name;
     totalResponses := st_totalResponses st;
     totalCoherence := totalCoherenceStr;
     totalDissimilarity := totalDissimilarityStr;
     filteredData := st_filteredData st |}.

(** The array [metrics] when the loop over models ends, before it is
    sorted. *)
Definition metrics (models : Models) (selectedQuestions : list string)
    : list ModelSummary :=
  foldl (fun pushed entry => pushed ++ [summarize selectedQuestions entry])
        [] models.

(** *** Ranking *)

(** [Array.prototype.sort] with a comparison function: the elements in
    ascending order of the comparison, equal elements in their original
    order.  One element is inserted before the first element it does not
    come after. *)
Fixpoint insert_sorted {A : Type} (compareFn : A -> A -> Z) (x : A)
    (l : list A) : list A :=
  match l with
  | [] => [x]
  | y :: l' =>
      if (compareFn x y <=? 0)%Z then x :: l
      else y :: insert_sorted compareFn x l'
  end.

Definition Array_sort {A : Type} (compareFn : A -> A -> Z) (l : list A)
    : list A :=
  foldr (insert_sorted compareFn) [] l.

(** [(a, b) => b.totalResponses - a.totalResponses] *)
Definition by_total_descending (a b : ModelSummary) : Z :=
  (Z.of_nat (totalResponses b) - Z.of_nat (totalResponses a))%Z.

Definition modelsMetrics (models : Models) (selectedQuestions : list string)
    : list ModelSummary :=
  Array_sort by_total_descending (metrics models selectedQuestions).

(** ** Scaling *)

(** [modelsMetrics.length > 0 ? modelsMetrics[0].totalResponses : 0] *)
Definition bestTotal (ranked : list ModelSummary) : nat :=
  match ranked with
  | [] => 0
  | first :: _ => totalResponses first
  end.

(** A division, or [None] when the divisor is zero: the value that the
    source divides by is recorded so that the guard can be checked. *)
Definition checked_div (x y : nat) : option Num.number :=
  if y =? 0 then None else Some (Num.div (Num.of_nat x) (Num.of_nat y)).

(** [bestTotal ? (model.totalResponses / bestTotal) * 100 : 0]; a count
    is falsy exactly when it is zero. *)
Definition ratio (best : nat) (model : ModelSummary) : option Num.number :=
  if negb (best =? 0) then
    q ← checked_div (totalResponses model) best;
    Some (Num.mul q (Num.of_nat 100))
  else Some Num.zero.

(** ** Drill-down *)

(** The state [selectedModelName] is [null] or a string; [null] and the
    empty string are falsy. *)
Definition falsy_name (selectedModelName : option string) : bool :=
  match selectedModelName with
  | None => true
  | Some name => bool_decide (name = ""%string)
  end.

(** [if (!selectedModelName) return null;
     const model = modelsMetrics.find((m) => m.modelName === selectedModelName);
     return model?.filteredData || null;]
    An object, even an empty one, is truthy. *)
Definition selectedModelDetail (selectedModelName : option string)
    (ranked : list ModelSummary) : option FilteredData :=
  if falsy_name selectedModelName then None
  else
    match
      find (fun m => bool_decide (Some (modelName m) = selectedModelName)) ranked
    with
    | Some model => Some (filteredData model)
    | None => None
    end.

(** What the modal shows under the model's name. *)
Inductive DetailView : Type :=
  | ParameterSections (sections : FilteredData)
  | NoDataAvailable.

(** [selectedModelDetail ? Object.entries(selectedModelDetail).map(...) :
     "No data available for this model."] *)
Definition detailView (detail : option FilteredData) : DetailView :=
  match detail with
  | Some sections => ParameterSections sections
  | None => NoDataAvailable
  end.

(** ** Quantities that the properties speak of *)


(** The responses that pass the filter, in the order the loops visit
    them. *)
Definition included_questions (selectedQuestions : list string)
    (questions : Questions) : list Response :=
  questions ≫= (fun q => if matches selectedQuestions q.1 then q.2 else []).

Definition included (selectedQuestions : list string) (params : Params)
    : list Response :=
  params ≫= (fun entry => included_questions selectedQuestions entry.2).

(** A running sum that starts at [0] and adds the scores from left to
    right. *)
Definition sum_scores (score : Response -> Num.number) (rs : list Response)
    : Num.number :=
  foldl Num.add Num.zero (score <$> rs).





(** ** Sample data *)

Definition response (n : Z) (text : string) (coherence dissimilarity : Num.number)
    : Response :=
  {| answer_num := n;
     answer := text;
     coherence_score := coherence;
     embedding_dissimilarity_score := dissimilarity |}.

(** Two answers with coherence 3.2 and 4.8 and dissimilarity 0.1 and 0.25. *)
Definition two_answers : list Response :=
  [ response 1 "first" (Num.literal false 32 (-1)) (Num.literal false 1 (-1));
    response 2 "second" (Num.literal false 48 (-1)) (Num.literal false 25 (-2)) ].

Definition one_answer : list Response :=
  [ response 1 "only" (Num.literal false 70 0) (Num.literal false 5 (-1)) ].

(** Three models: one response for the first, two for each of the others. *)
Definition gpt4_entry : string * Params :=
  ("openai/gpt-4", [ ("temperature_0.7", [ ("Q1", one_answer) ]) ])%string.

Definition claude_entry : string * Params :=
  ("anthropic/claude", [ ("temperature_0.7", [ ("Q1", two_answers) ]) ])%string.

Definition gemini_entry : string * Params :=
  ("google/gemini",
     [ ("temperature_0.7", [ ("Q1", one_answer); ("Q2", one_answer) ]) ])%string.

Definition sample_models : Models := [ gpt4_entry; claude_entry; gemini_entry ].




(** ** The question index: [uniqueQuestions] *)

(** A [Set] of strings lists its values in the order of their insertion;
    [add] leaves a set that holds the value as it is. *)
Definition Set_add (questionsSet : list string) (question : string)
    : list string :=
  if bool_decide (question ∈ questionsSet) then questionsSet
  else questionsSet ++ [question].

(** [Object.values(sampleData.models).forEach((model) =>
       Object.values(model).forEach((paramObj) =>
         Object.keys(paramObj).forEach((question) =>
           questionsSet.add(question))));
     return Array.from(questionsSet);] *)
Definition uniqueQuestions (models : Models) : list string :=
  foldl (fun questionsSet (model : Params) =>
           foldl (fun questionsSet (paramObj : Questions) =>
                    foldl Set_add questionsSet (paramObj.*1))
                 questionsSet (model.*2))
        [] (models.*2).

(** ** The state of the component and its handlers *)

(** The three [useState] cells. *)
Record AppState : Type := {
  state_selectedQuestions : list string;
  state_modalOpen : bool;
  state_selectedModelName : option string
}.

(** [useState([])], [useState(false)], [useState(null)] *)
Definition initialState : AppState :=
  {| state_selectedQuestions := [];
     state_modalOpen := false;
     state_selectedModelName := None |}.

(** [setSelectedQuestions(event.target.value)] *)
Definition handleFilterChange (value : list string) (st : AppState) : AppState :=
  {| state_selectedQuestions := value;
     state_modalOpen := state_modalOpen st;
     state_selectedModelName := state_selectedModelName st |}.

(** [setSelectedQuestions(uniqueQuestions)] *)
Definition handleSelectAll (models : Models) (st : AppState) : AppState :=
  {| state_selectedQuestions := uniqueQuestions models;
     state_modalOpen := state_modalOpen st;
     state_selectedModelName := state_selectedModelName st |}.

(** [setSelectedQuestions([])] *)
Definition handleDeselectAll (st : AppState) : AppState :=
  {| state_selectedQuestions := [];
     state_modalOpen := state_modalOpen st;
     state_selectedModelName := state_selectedModelName st |}.

(** [setSelectedModelName(modelName); setModalOpen(true)] *)
Definition handleModelClick (name : string) (st : AppState) : AppState :=
  {| state_selectedQuestions := state_selectedQuestions st;
     state_modalOpen := true;
     state_selectedModelName := Some name |}.

(** [setModalOpen(false); setSelectedModelName(null)] *)
Definition handleClose (st : AppState) : AppState :=
  {| state_selectedQuestions := state_selectedQuestions st;
     state_modalOpen := false;
     state_selectedModelName := None |}.

(** The table and the drill-down data that a render derives from the
    state. *)
Definition currentTable (models : Models) (st : AppState) : list ModelSummary :=
  modelsMetrics models (state_selectedQuestions st).

Definition currentDetail (models : Models) (st : AppState)
    : option FilteredData :=
  selectedModelDetail (state_selectedModelName st) (currentTable models st).

(** What the user does: a change of the multi-select, one of the two
    buttons, a click on a row of the table, the closing of the modal. *)
Inductive Event : Type :=
  | FilterChange (value : list string)
  | SelectAllClick
  | DeselectAllClick
  | RowClick (row : nat)
  | CloseModal.

(** The handler that the element binds to the event.  A row of the table
    binds [() => handleModelClick(model.modelName)] for its own [model];
    where the table has no row there is nothing to click. *)
Definition dispatch (models : Models) (st : AppState) (ev : Event) : AppState :=
  match ev with
  | FilterChange value => handleFilterChange value st
  | SelectAllClick => handleSelectAll models st
  | DeselectAllClick => handleDeselectAll st
  | RowClick row =>
      match currentTable models st !! row with
      | Some model => handleModelClick (modelName model) st
      | None => st
      end
  | CloseModal => handleClose st
  end.

Definition run (models : Models) (events : list Event) : AppState :=
  foldl (dispatch models) initialState events.

(** ** The filter control *)

(** [Array.prototype.indexOf]: the index of the first element equal to the
    value, or [-1]. *)
Fixpoint indexOf_from (i : Z) (l : list string) (x : string) : Z :=
  match l with
  | [] => (-1)%Z
  | y :: l' => if bool_decide (y = x) then i else indexOf_from (i + 1)%Z l' x
  end.

Definition indexOf (l : list string) (x : string) : Z := indexOf_from 0%Z l x.

(** [checked={selectedQuestions.indexOf(question) > -1}] *)
Definition checked (selectedQuestions : list string) (question : string) : bool :=
  (-1 <? indexOf selectedQuestions question)%Z.

(** ** The rows of the table *)

Definition COMPANY_COLORS : gmap string string :=
  list_to_map
    [ ("openai", "#74AA9C");
      ("meta-llama", "#044EAB");
      ("anthropic", "#D4C5B9");
      ("google", "#669DF7");
      ("x-ai", "#000000");
      ("mistralai", "#F54E42") ]%string.

(** [s.split("/")[0]]: the text before the first slash, the whole text
    when it has none. *)
Fixpoint before_slash (s : string) : string :=
  match s with
  | EmptyString => EmptyString
  | String c s' => if Ascii.eqb c "/" then EmptyString else String c (before_slash s')
  end.

(** [toLowerCase] on a text of ASCII characters, as the model identifiers
    are: the letters [A] to [Z] become [a] to [z]. *)
Definition lower (c : ascii) : ascii :=
  let n := nat_of_ascii c in
  if (65 <=? n) && (n <=? 90) then ascii_of_nat (n + 32) else c.

Fixpoint toLowerCase (s : string) : string :=
  match s with
  | EmptyString => EmptyString
  | String c s' => String (lower c) (toLowerCase s')
  end.

(** [model.modelName.split("/")[0].toLowerCase()] *)
Definition company (name : string) : string := toLowerCase (before_slash name).

(** The names that every object inherits from [Object.prototype]: reading
    one of them from an object literal that does not define it gives the
    inherited member, not [undefined]. *)
Definition Object_prototype : list string :=
  [ "constructor"; "__defineGetter__"; "__defineSetter__"; "hasOwnProperty";
    "__lookupGetter__"; "__lookupSetter__"; "isPrototypeOf";
    "propertyIsEnumerable"; "toString"; "valueOf"; "__proto__";
    "toLocaleString" ]%string.

(** The value of [COMPANY_COLORS[company] || "#cccccc"]: a colour text, or a
    member of [Object.prototype] (a function or an object, which is
    truthy). *)
Inductive RowColor : Type :=
  | Colour (text : string)
  | Inherited (member : string).

Definition rowColor (name : string) : RowColor :=
  match COMPANY_COLORS !! company name with
  | Some text =>
      if bool_decide (text = ""%string) then Colour "#cccccc" else Colour text
  | None =>
      if bool_decide (company name ∈ Object_prototype)
      then Inherited (company name)
      else Colour "#cccccc"
  end.

(** The template literal [linear-gradient(to right, ${rowColor} ${ratio}%,
    white ${ratio}%)] for a colour text. *)
Definition gradient (text : string) (ratio : Num.number) : string :=
  ("linear-gradient(to right, " +:+ text +:+ " " +:+ Num.toString ratio
   +:+ "%, white " +:+ Num.toString ratio +:+ "%)")%string.

(** ** The chart and the rows of the drill-down view *)

(** [parseFloat((r.embedding_dissimilarity_score * 100).toFixed(1))] *)
Definition dissimilarityPercent (score : Num.number) : Num.number :=
  Num.parseFloat (Num.toFixed (Num.mul score (Num.of_nat 100)) 1).

(** The labels and the two data series of [chartData]. *)
Record ChartData : Type := {
  chart_labels : list string;
  chart_coherence : list Num.number;
  chart_dissimilarity : list Num.number
}.

Definition chartData (responses : list Response) : ChartData :=
  {| chart_labels :=
       (fun r => "#" +:+ Num.toString (Num.of_Z (answer_num r)))%string <$> responses;
     chart_coherence := coherence_score <$> responses;
     chart_dissimilarity :=
       (fun r => dissimilarityPercent (embedding_dissimilarity_score r))
       <$> responses |}.

(** ** The drill-down object in enumeration order *)





(** ** More quantities that the properties speak of *)

(** Every question key of the dataset, in the order in which
    [uniqueQuestions] meets them, with repetitions. *)
Definition question_keys (models : Models) : list string :=
  models ≫= (fun model => model.2 ≫= (fun paramObj => paramObj.2.*1)).

(** A list without the later copies of its elements. *)
Fixpoint first_seen (l : list string) : list string :=
  match l with
  | [] => []
  | q :: l' => q :: filter (fun q' => q' ≠ q) (first_seen l')
  end.

(** The questions of a configuration that pass the filter, and the subtree
    of a model's data that they make up: a configuration without such a
    question is left out. *)
Definition selected_questions (selectedQuestions : list string)
    (questions : Questions) : Questions :=
  filter (fun q => matches selectedQuestions q.1 = true) questions.

Definition selected_subtree (selectedQuestions : list string) (params : Params)
    : Params :=
  omap (fun entry : string * Questions =>
          match selected_questions selectedQuestions entry.2 with
          | [] => None
          | kept => Some (entry.1, kept)
          end) params.

(** A number from 0 to a bound: a dissimilarity score is a number from 0
    to 1. *)
Definition from_zero_to (bound : Z) (x : Num.number) : Prop :=
  match x with
  | S754_zero _ => (0 <= bound)%Z
  | S754_finite false m e =>
      let '(p, q) := Num.fraction m e in (p <= bound * q)%Z
  | _ => False
  end.

(** * Properties *)

(** ** The loops *)

Section Loops.
Variable selectedQuestions : list string.

Lemma foldl_count_response (st : LoopState) (responses : list Response) :
  foldl count_response st responses =
  {| st_totalResponses := st_totalResponses st + length responses;
     st_sumCoherence :=
       foldl Num.add (st_sumCoherence st) (coherence_score <$> responses);
     st_sumDissimilarity :=
       foldl Num.add (st_sumDissimilarity st)
             (embedding_dissimilarity_score <$> responses);
     st_filteredData := st_filteredData st |}.
Proof.
  revert st. induction responses as [|resp responses IH]; intros st; simpl.
  - destruct st; simpl. f_equal. lia.
  - rewrite IH. simpl. f_equal. lia.
Qed.

(** The state after one question, field by field. *)
Lemma visit_question_fields (paramKey : string) (st : LoopState)
    (question : string) (responses : list Response) :
  let kept := if matches selectedQuestions question then responses else [] in
  let st' := visit_question selectedQuestions paramKey st (question, responses) in
  st_totalResponses st' = st_totalResponses st + length kept /\
  st_sumCoherence st' =
    foldl Num.add (st_sumCoherence st) (coherence_score <$> kept) /\
  st_sumDissimilarity st' =
    foldl Num.add (st_sumDissimilarity st)
          (embedding_dissimilarity_score <$> kept) /\
  st_filteredData st' =
    (if matches selectedQuestions question
     then store paramKey question responses (st_filteredData st)
     else st_filteredData st).
Proof.
  unfold visit_question. destruct (matches selectedQuestions question); simpl.
  - rewrite foldl_count_response. simpl. done.
  - repeat split; lia.
Qed.

Lemma visit_questions_sums (paramKey : string) (questions : Questions)
    (st : LoopState) :
  let kept := included_questions selectedQuestions questions in
  let st' := foldl (visit_question selectedQuestions paramKey) st questions in
  st_totalResponses st' = st_totalResponses st + length kept /\
  st_sumCoherence st' =
    foldl Num.add (st_sumCoherence st) (coherence_score <$> kept) /\
  st_sumDissimilarity st' =
    foldl Num.add (st_sumDissimilarity st)
          (embedding_dissimilarity_score <$> kept).
Proof.
  revert st. induction questions as [|[question responses] questions IH];
    intros st.
  - simpl. repeat split; lia.
  - destruct (IH (visit_question selectedQuestions paramKey st
                    (question, responses))) as (Ht & Hc & Hd).
    destruct (visit_question_fields paramKey st question responses)
      as (Ht1 & Hc1 & Hd1 & _).
    unfold included_questions in *. cbn [foldl]. rewrite bind_cons.
    cbn [fst snd].
    rewrite Ht, Hc, Hd, Ht1, Hc1, Hd1.
    rewrite !fmap_app, !foldl_app, length_app. repeat split; lia.
Qed.

Lemma visit_params_sums (params : Params) (st : LoopState) :
  let kept := included selectedQuestions params in
  let st' := foldl (visit_param selectedQuestions) st params in
  st_totalResponses st' = st_totalResponses st + length kept /\
  st_sumCoherence st' =
    foldl Num.add (st_sumCoherence st) (coherence_score <$> kept) /\
  st_sumDissimilarity st' =
    foldl Num.add (st_sumDissimilarity st)
          (embedding_dissimilarity_score <$> kept).
Proof.
  revert st. induction params as [|[paramKey questions] params IH];
    intros st.
  - simpl. repeat split; lia.
  - destruct (IH (foldl (visit_question selectedQuestions paramKey) st questions))
      as (Ht & Hc & Hd).
    destruct (visit_questions_sums paramKey questions st) as (Ht1 & Hc1 & Hd1).
    unfold included in *. cbn [foldl]. rewrite bind_cons.
    cbn [fst snd visit_param].
    rewrite Ht, Hc, Hd, Ht1, Hc1, Hd1.
    rewrite !fmap_app, !foldl_app, length_app. repeat split; lia.
Qed.

(** The summary of a model in terms of the responses that pass the
    filter. *)
Lemma summarize_fields (name : string) (params : Params) :
  let kept := included selectedQuestions params in
  let s := summarize selectedQuestions (name, params) in
  modelName s = name /\
  totalResponses s = length kept /\
  totalCoherence s =
    (if 0 <? length kept
     then Num.toString (Num.Math_round (sum_scores coherence_score kept))
     else "0"%string) /\
  totalDissimilarity s =
    (if 0 <? length kept
     then Num.toString
            (Num.parseFloat
               (Num.toFixed (sum_scores embedding_dissimilarity_score kept) 1))
     else "0"%string).
Proof.
  destruct (visit_params_sums params initial) as (Ht & Hc & Hd).
  simpl in Ht, Hc, Hd. unfold summarize, sum_scores. simpl.
  rewrite Ht, Hc, Hd. done.
Qed.

Lemma metrics_map (models : Models) :
  metrics models selectedQuestions = summarize selectedQuestions <$> models.
Proof.
  unfold metrics.
  assert (forall pushed,
    foldl (fun pushed entry => pushed ++ [summarize selectedQuestions entry])
          pushed models
    = pushed ++ (summarize selectedQuestions <$> models)) as H.
  { induction models as [|entry models IH]; intros pushed; simpl.
    - by rewrite app_nil_r.
    - rewrite IH. by rewrite <- app_assoc. }
  apply H.
Qed.
End Loops.

(** ** The drill-down object *)











(** ** The drill-down object through the loops *)

Section Drilldown.
Variable selectedQuestions : list string.











(** Without a matching question the loops leave the state as it is. *)
Lemma visit_params_no_match (params : Params) (st : LoopState) :
  (forall paramKey questions question responses,
     (paramKey, questions) ∈ params -> (question, responses) ∈ questions ->
     matches selectedQuestions question = false) ->
  foldl (visit_param selectedQuestions) st params = st.
Proof.
  induction params as [|[paramKey questions] params IH]; intros Hno; [done|].
  cbn [foldl visit_param].
  assert (foldl (visit_question selectedQuestions paramKey) st questions = st)
    as ->.
  { assert (forall question responses,
              (question, responses) ∈ questions ->
              matches selectedQuestions question = false) as Hq.
    { intros question responses Hin.
      apply (Hno paramKey questions question responses); [by left | done]. }
    clear Hno IH.
    induction questions as [|[question responses] questions IHq]; [done|].
    cbn [foldl visit_question].
    rewrite (Hq question responses) by (by left).
    apply IHq. intros question' responses' Hin.
    apply (Hq question' responses'). by right. }
  apply IH. intros paramKey' questions' question responses Hp Hq.
  apply (Hno paramKey' questions' question responses); [by right | done].
Qed.
End Drilldown.

(** ** What the drill-down object holds *)


Section Contents.
Variable selectedQuestions : list string.




End Contents.

(** ** Ranking *)

Section Sorting.
Context {A : Type} (compareFn : A -> A -> Z).

Lemma insert_sorted_perm (x : A) (l : list A) :
  insert_sorted compareFn x l ≡ₚ x :: l.
Proof.
  induction l as [|y l IH]; simpl; [done|].
  destruct (compareFn x y <=? 0)%Z; [done|].
  rewrite IH. apply Permutation_swap.
Qed.

Lemma Array_sort_perm (l : list A) : Array_sort compareFn l ≡ₚ l.
Proof.
  induction l as [|x l IH]; simpl; [done|].
  rewrite insert_sorted_perm. by rewrite IH.
Qed.

(** Elements that compare as equal pass through an insertion in their
    order: a predicate whose elements never come after one another
    selects the same subsequence before and after. *)
Lemma filter_insert_sorted (P : A -> Prop) `{!forall x, Decision (P x)}
    (x : A) (l : list A) :
  (forall a b, P a -> P b -> (compareFn a b <= 0)%Z) ->
  filter P (insert_sorted compareFn x l) = filter P (x :: l).
Proof.
  intros Htie. induction l as [|y l IH]; simpl; [done|].
  destruct (compareFn x y <=? 0)%Z eqn:Hcmp; [done|].
  apply Z.leb_gt in Hcmp.
  rewrite (filter_cons P y), IH, !(filter_cons P x), (filter_cons P y).
  destruct (decide (P y)) as [Hy|Hy]; [|done].
  destruct (decide (P x)) as [Hx|Hx]; [|done].
  specialize (Htie x y Hx Hy). lia.
Qed.

Lemma filter_Array_sort (P : A -> Prop) `{!forall x, Decision (P x)}
    (l : list A) :
  (forall a b, P a -> P b -> (compareFn a b <= 0)%Z) ->
  filter P (Array_sort compareFn l) = filter P l.
Proof.
  intros Htie. induction l as [|x l IH]; simpl; [done|].
  rewrite filter_insert_sorted by done.
  by rewrite !(filter_cons P x), IH.
Qed.

(** With a comparison that is total and transitive, the result is in
    ascending order of the comparison. *)
Hypothesis compare_total :
  forall a b, (compareFn a b <= 0)%Z \/ (compareFn b a <= 0)%Z.
Hypothesis compare_trans :
  forall a b c,
    (compareFn a b <= 0)%Z -> (compareFn b c <= 0)%Z -> (compareFn a c <= 0)%Z.

Lemma insert_sorted_sorted (x : A) (l : list A) :
  StronglySorted (fun a b => (compareFn a b <= 0)%Z) l ->
  StronglySorted (fun a b => (compareFn a b <= 0)%Z) (insert_sorted compareFn x l).
Proof.
  induction 1 as [|y l Hsorted IH Hall]; simpl.
  - repeat constructor.
  - destruct (compareFn x y <=? 0)%Z eqn:Hcmp.
    + apply Z.leb_le in Hcmp. constructor; [by constructor|].
      constructor; [done|].
      eapply Forall_impl; [exact Hall|]. intros z Hz. by eapply compare_trans.
    + apply Z.leb_gt in Hcmp. constructor; [done|].
      rewrite insert_sorted_perm. constructor; [|done].
      destruct (compare_total x y); lia.
Qed.

Lemma Array_sort_sorted (l : list A) :
  StronglySorted (fun a b => (compareFn a b <= 0)%Z) (Array_sort compareFn l).
Proof.
  induction l as [|x l IH]; simpl; [constructor|].
  by apply insert_sorted_sorted.
Qed.
End Sorting.

(** Two lists in descending order of a key that hold, for each key, the
    same elements in the same order, are equal. *)
Lemma sorted_filters_eq {A : Type} (key : A -> nat) (l1 l2 : list A) :
  StronglySorted (fun a b => key b <= key a) l1 ->
  StronglySorted (fun a b => key b <= key a) l2 ->
  (forall t, filter (fun s => key s = t) l1 = filter (fun s => key s = t) l2) ->
  l1 = l2.
Proof.
  intros Hsorted1. revert l2.
  induction Hsorted1 as [|x l1 Hsorted1 IH Hx]; intros l2 Hsorted2 Hfilter.
  - destruct l2 as [|y l2]; [done|].
    specialize (Hfilter (key y)). rewrite filter_cons_True in Hfilter by done.
    done.
  - destruct Hsorted2 as [|y l2 Hsorted2 Hy].
    { specialize (Hfilter (key x)). rewrite filter_cons_True in Hfilter by done.
      done. }
    assert (key x <= key y) as Hxy.
    { assert (x ∈ filter (fun s => key s = key x) (y :: l2)) as Hin.
      { rewrite <- Hfilter, filter_cons_True by done. left. }
      apply list_elem_of_filter in Hin as [_ Hin].
      apply elem_of_cons in Hin as [->|Hin]; [done|].
      rewrite Forall_forall in Hy. by apply Hy. }
    assert (key y <= key x) as Hyx.
    { assert (y ∈ filter (fun s => key s = key y) (x :: l1)) as Hin.
      { rewrite Hfilter, filter_cons_True by done. left. }
      apply list_elem_of_filter in Hin as [_ Hin].
      apply elem_of_cons in Hin as [->|Hin]; [done|].
      rewrite Forall_forall in Hx. by apply Hx. }
    assert (x = y) as <-.
    { specialize (Hfilter (key x)).
      rewrite !filter_cons_True in Hfilter by lia. by injection Hfilter. }
    f_equal. apply IH; [done|]. intros t. specialize (Hfilter t).
    rewrite !(filter_cons (fun s => key s = t) x) in Hfilter.
    destruct (decide (key x = t)); [by injection Hfilter | done].
Qed.

Lemma StronglySorted_weaken {A : Type} (R1 R2 : A -> A -> Prop) (l : list A) :
  (forall a b, R1 a b -> R2 a b) -> StronglySorted R1 l -> StronglySorted R2 l.
Proof.
  intros Himpl. induction 1 as [|a l Hsorted IH Hall]; constructor; [done|].
  eapply Forall_impl; [exact Hall|]. intros b. apply Himpl.
Qed.

Lemma by_total_descending_le (a b : ModelSummary) :
  (by_total_descending a b <= 0)%Z <-> totalResponses b <= totalResponses a.
Proof. unfold by_total_descending. lia. Qed.

Lemma modelsMetrics_perm (models : Models) (selectedQuestions : list string) :
  modelsMetrics models selectedQuestions
  ≡ₚ summarize selectedQuestions <$> models.
Proof.
  unfold modelsMetrics. rewrite Array_sort_perm. by rewrite metrics_map.
Qed.

Lemma by_total_descending_sorted (l : list ModelSummary) :
  StronglySorted (fun a b => totalResponses b <= totalResponses a)
    (Array_sort by_total_descending l).
Proof.
  eapply StronglySorted_weaken;
    [|apply (Array_sort_sorted by_total_descending)].
  - intros a b. apply by_total_descending_le.
  - intros a b. unfold by_total_descending. lia.
  - intros a b c. unfold by_total_descending. lia.
Qed.

(** Any rearrangement of the summaries that is in descending order of
    [totalResponses] and keeps the summaries of one and the same total in
    their order is the one that [Array_sort] computes. *)
Lemma Array_sort_determined (l ranked : list ModelSummary) :
  StronglySorted (fun a b => totalResponses b <= totalResponses a) ranked ->
  (forall t, filter (fun s => totalResponses s = t) ranked
             = filter (fun s => totalResponses s = t) l) ->
  ranked = Array_sort by_total_descending l.
Proof.
  intros Hsorted Hstable.
  apply (sorted_filters_eq totalResponses); [done | apply by_total_descending_sorted |].
  intros t. rewrite Hstable. symmetry. apply filter_Array_sort.
  intros a b Ha Hb. unfold by_total_descending. lia.
Qed.

Lemma modelsMetrics_sorted (models : Models) (selectedQuestions : list string) :
  StronglySorted (fun a b => totalResponses b <= totalResponses a)
    (modelsMetrics models selectedQuestions).
Proof. apply by_total_descending_sorted. Qed.

(** A summary of the ranked table comes from one entry of the dataset. *)
Lemma modelsMetrics_elem_of (models : Models) (selectedQuestions : list string)
    (s : ModelSummary) :
  s ∈ modelsMetrics models selectedQuestions <->
  exists name params,
    (name, params) ∈ models /\ s = summarize selectedQuestions (name, params).
Proof.
  rewrite modelsMetrics_perm, list_elem_of_fmap. split.
  - intros ([name params] & -> & Hin). eauto.
  - intros (name & params & Hin & ->). eauto.
Qed.

(** The entries of an object are determined by their keys. *)
Lemma distinct_keys_lookup {V : Type} (entries : list (string * V))
    (key : string) (v v' : V) :
  distinct_keys entries ->
  (key, v) ∈ entries -> (key, v') ∈ entries -> v = v'.
Proof.
  unfold distinct_keys.
  induction entries as [|[key0 v0] entries IH]; intros Hdistinct Hin Hin'.
  - by apply elem_of_nil in Hin.
  - rewrite fmap_cons in Hdistinct. cbn [fst] in Hdistinct.
    apply NoDup_cons in Hdistinct as [Hnotin Hdistinct].
    apply elem_of_cons in Hin as [Hin|Hin];
      apply elem_of_cons in Hin' as [Hin'|Hin']; simplify_eq.
    + done.
    + destruct Hnotin. apply list_elem_of_fmap. by exists (key0, v').
    + destruct Hnotin. apply list_elem_of_fmap. by exists (key0, v).
    + by apply IH.
Qed.

(** ** The sample data *)

Lemma sample_models_wf : wf_dataset sample_models.
Proof.
  apply (bool_decide_unpack (wf_dataset sample_models)). vm_compute. exact I.
Qed.


(** The three sample models have 1, 2 and 2 responses: the two models with
    2 responses come first, in the order of the dataset. *)
Lemma sample_ranking :
  (fun s => (modelName s, totalResponses s)) <$> metrics sample_models []
  = [ ("openai/gpt-4", 1); ("anthropic/claude", 2); ("google/gemini", 2) ]%string /\
  (fun s => (modelName s, totalResponses s)) <$> modelsMetrics sample_models []
  = [ ("anthropic/claude", 2); ("google/gemini", 2); ("openai/gpt-4", 1) ]%string.
Proof. split; vm_compute; reflexivity. Qed.

(** ** Totals *)

Lemma matches_empty (question : string) : matches [] question = true.
Proof. done. Qed.

Lemma matches_nonempty (selectedQuestions : list string) (question : string) :
  selectedQuestions ≠ [] ->
  matches selectedQuestions question = true <-> question ∈ selectedQuestions.
Proof.
  intros Hne. unfold matches. destruct selectedQuestions as [|q qs]; [done|].
  simpl. by rewrite bool_decide_eq_true.
Qed.


(** A filter that accepts more questions counts more responses. *)
Lemma included_monotone (F1 F2 : list string) (params : Params) :
  (forall question, matches F1 question = true -> matches F2 question = true) ->
  length (included F1 params) <= length (included F2 params).
Proof.
  intros Hsub. unfold included.
  induction params as [|[paramKey questions] params IH]; [done|].
  rewrite !bind_cons, !length_app. cbn [snd].
  enough (length (included_questions F1 questions)
          <= length (included_questions F2 questions)) by lia.
  clear IH. unfold included_questions.
  induction questions as [|[question responses] questions IH]; [done|].
  rewrite !bind_cons, !length_app. cbn [fst snd].
  specialize (Hsub question).
  destruct (matches F1 question), (matches F2 question); simpl;
    first [lia | by specialize (Hsub eq_refl)].
Qed.

Lemma summarize_total (selectedQuestions : list string) (entry : string * Params) :
  totalResponses (summarize selectedQuestions entry)
  = length (included selectedQuestions entry.2).
Proof.
  destruct entry as [name params].
  by destruct (summarize_fields selectedQuestions name params) as (_ & -> & _).
Qed.

Lemma summarize_name (selectedQuestions : list string) (entry : string * Params) :
  modelName (summarize selectedQuestions entry) = entry.1.
Proof. by destruct entry. Qed.

(** With distinct model keys, the summary with a given name is the one of
    the entry with that key. *)
Lemma modelsMetrics_named (models : Models) (selectedQuestions : list string)
    (s : ModelSummary) (params : Params) :
  distinct_keys models ->
  s ∈ modelsMetrics models selectedQuestions ->
  (modelName s, params) ∈ models ->
  s = summarize selectedQuestions (modelName s, params).
Proof.
  intros Hdistinct Hs Hin.
  apply modelsMetrics_elem_of in Hs as (name & params' & Hin' & ->).
  rewrite summarize_name in *. cbn [fst] in *.
  by rewrite (distinct_keys_lookup models name params params').
Qed.



(** ** Filtering *)

(** C4. For non-empty filters [F1 ⊆ F2], a model has at most as many
    responses under [F1] as under [F2]; and under a non-empty filter it has
    at most as many as under the empty filter, which includes everything. *)
Theorem filter_monotonicity (models : Models) :
  distinct_keys models ->
  (forall (F1 F2 : list string) (s1 s2 : ModelSummary),
     F1 ≠ [] -> F2 ≠ [] -> F1 ⊆ F2 ->
     s1 ∈ modelsMetrics models F1 -> s2 ∈ modelsMetrics models F2 ->
     modelName s1 = modelName s2 ->
     totalResponses s1 <= totalResponses s2) /\
  (forall (F : list string) (s s0 : ModelSummary),
     F ≠ [] ->
     s ∈ modelsMetrics models F -> s0 ∈ modelsMetrics models [] ->
     modelName s = modelName s0 ->
     totalResponses s <= totalResponses s0).
Proof.
  intros Hdistinct.
  assert (forall F1 F2 s1 s2,
            (forall question,
               matches F1 question = true -> matches F2 question = true) ->
            s1 ∈ modelsMetrics models F1 -> s2 ∈ modelsMetrics models F2 ->
            modelName s1 = modelName s2 ->
            totalResponses s1 <= totalResponses s2) as Hmono.
  { intros F1 F2 s1 s2 Hsub Hs1 Hs2 Hname.
    apply modelsMetrics_elem_of in Hs1 as (name1 & params1 & Hin1 & ->).
    apply modelsMetrics_elem_of in Hs2 as (name2 & params2 & Hin2 & ->).
    rewrite !summarize_name in Hname. cbn [fst] in Hname. subst name2.
    rewrite (distinct_keys_lookup models name1 params2 params1) by done.
    rewrite !summarize_total. by apply included_monotone. }
  split.
  - intros F1 F2 s1 s2 Hne1 Hne2 Hsub. apply Hmono. intros question.
    rewrite !matches_nonempty by done. apply Hsub.
  - intros F s s0 Hne. apply Hmono. intros question _. apply matches_empty.
Qed.

Lemma filter_monotonicity_witness :
  totalResponses (summarize ["Q2"%string] gemini_entry)
  <= totalResponses (summarize ["Q1"; "Q2"]%string gemini_entry) /\
  totalResponses (summarize ["Q2"%string] gemini_entry)
  <= totalResponses (summarize [] gemini_entry).
Proof.
  assert (forall F, summarize F gemini_entry ∈ modelsMetrics sample_models F)
    as Hin.
  { intros F. apply modelsMetrics_elem_of. do 2 eexists. split; [|done].
    do 2 apply list_elem_of_further. apply list_elem_of_here. }
  destruct (filter_monotonicity sample_models (proj1 sample_models_wf))
    as [Hsubset Hempty].
  split.
  - apply (Hsubset ["Q2"%string] ["Q1"; "Q2"]%string); try done.
    intros question. rewrite !elem_of_cons. tauto.
  - by apply (Hempty ["Q2"%string]).
Defined.

(** C5. The ranked table has exactly one summary for every model key of the
    dataset, whatever the filter; and a model none of whose questions match
    the filter is still listed, with no response and an empty drill-down
    object. *)
Theorem no_model_dropped (models : Models) (selectedQuestions : list string) :
  modelName <$> modelsMetrics models selectedQuestions ≡ₚ models.*1 /\
  forall (name : string) (params : Params),
    (name, params) ∈ models ->
    (forall paramKey questions question responses,
       (paramKey, questions) ∈ params -> (question, responses) ∈ questions ->
       matches selectedQuestions question = false) ->
    exists s,
      s ∈ modelsMetrics models selectedQuestions /\
      modelName s = name /\ totalResponses s = 0 /\ filteredData s = ∅.
Proof.
  split.
  - rewrite modelsMetrics_perm, <- list_fmap_compose.
    by rewrite (list_fmap_ext _ fst models)
      by (intros _ entry _; apply summarize_name).
  - intros name params Hin Hno.
    exists (summarize selectedQuestions (name, params)). split.
    + apply modelsMetrics_elem_of. eauto.
    + unfold summarize. by rewrite visit_params_no_match.
Qed.

Lemma no_model_dropped_witness :
  exists s,
    s ∈ modelsMetrics sample_models ["Q2"%string] /\
    modelName s = "openai/gpt-4"%string /\
    totalResponses s = 0 /\ filteredData s = ∅.
Proof.
  apply (proj2 (no_model_dropped sample_models ["Q2"%string])
               "openai/gpt-4"%string (snd gpt4_entry)).
  - apply list_elem_of_here.
  - intros paramKey questions question responses Hp Hq.
    apply list_elem_of_singleton in Hp. simplify_eq.
    apply list_elem_of_singleton in Hq. by simplify_eq.
Defined.



(** ** The count of stored responses *)




(** ** Ranking and scaling *)

(** C7. The ranked table is a rearrangement of the pushed summaries in
    descending order of [totalResponses]: every summary has at least the
    total of the next one, the first one has the maximum, and the summaries
    with one and the same total are in the order in which they were
    pushed. *)
Theorem ranking_descending_stable (models : Models)
    (selectedQuestions : list string) :
  let pushed := metrics models selectedQuestions in
  let ranked := modelsMetrics models selectedQuestions in
  ranked ≡ₚ pushed /\
  Sorted (fun a b => totalResponses b <= totalResponses a) ranked /\
  Forall (fun s => totalResponses s <= bestTotal ranked) ranked /\
  forall total : nat,
    filter (fun s => totalResponses s = total) ranked
    = filter (fun s => totalResponses s = total) pushed.
Proof.
  cbn zeta. pose proof (modelsMetrics_sorted models selectedQuestions) as Hsorted.
  repeat split.
  - apply Array_sort_perm.
  - by apply StronglySorted_Sorted.
  - destruct Hsorted as [|first rest Hrest Hfirst]; [constructor|].
    constructor; [done|]. exact Hfirst.
  - intros total. apply filter_Array_sort.
    intros a b Ha Hb. unfold by_total_descending. lia.
Qed.

(** C8. The baseline is the total of the first summary, or zero for an
    empty table; the ratio of a row is zero when the baseline is zero, and
    no ratio divides by zero. *)
Theorem baseline_and_ratio (ranked : list ModelSummary) (model : ModelSummary) :
  bestTotal ranked = default 0 (totalResponses <$> head ranked) /\
  bestTotal [] = 0 /\
  ratio 0 model = Some Num.zero /\
  is_Some (ratio (bestTotal ranked) model).
Proof.
  repeat split.
  - by destruct ranked.
  - unfold ratio, checked_div.
    destruct (bestTotal ranked =? 0) eqn:Hbest; simpl; eauto.
Qed.

(** ** Drill-down *)

Lemma find_none_iff {A : Type} (f : A -> bool) (l : list A) :
  find f l = None <-> forall x, x ∈ l -> f x = false.
Proof.
  induction l as [|y l IH]; simpl.
  - split; [|done]. intros _ x Hx. by apply elem_of_nil in Hx.
  - destruct (f y) eqn:Hy.
    + split; [done|]. intros Hall.
      rewrite (Hall y) in Hy by apply list_elem_of_here. done.
    + rewrite IH. split.
      * intros Hall x Hx. apply elem_of_cons in Hx as [->|Hx]; auto.
      * intros Hall x Hx. apply Hall. by apply list_elem_of_further.
Qed.

(** C10. When no model is selected, or the selected name is the key of no
    model of the dataset, the drill-down lookup returns [null], and the
    modal shows that no data is available. *)
Theorem drilldown_absent (models : Models) (selectedQuestions : list string) :
  let ranked := modelsMetrics models selectedQuestions in
  selectedModelDetail None ranked = None /\
  detailView None = NoDataAvailable /\
  forall name : string,
    name ∉ models.*1 ->
    selectedModelDetail (Some name) ranked = None /\
    detailView (selectedModelDetail (Some name) ranked) = NoDataAvailable.
Proof.
  cbn zeta. split; [done|]. split; [done|]. intros name Hname.
  assert (selectedModelDetail (Some name)
            (modelsMetrics models selectedQuestions) = None) as ->;
    [|done].
  unfold selectedModelDetail. destruct (falsy_name (Some name)); [done|].
  assert (find (fun m => bool_decide (Some (modelName m) = Some name))
               (modelsMetrics models selectedQuestions) = None) as ->; [|done].
  apply find_none_iff. intros s Hs. apply bool_decide_eq_false.
  intros [= Heq]. apply Hname.
  apply modelsMetrics_elem_of in Hs as (name' & params & Hin & ->).
  rewrite summarize_name in Heq. cbn [fst] in Heq. subst name'.
  apply list_elem_of_fmap. by exists (name, params).
Qed.

Lemma drilldown_absent_witness :
  selectedModelDetail (Some "mistralai/mixtral"%string)
    (modelsMetrics sample_models []) = None /\
  detailView (selectedModelDetail (Some "mistralai/mixtral"%string)
                (modelsMetrics sample_models [])) = NoDataAvailable.
Proof.
  apply (proj2 (proj2 (drilldown_absent sample_models []))).
  apply (bool_decide_unpack _). vm_compute. exact I.
Defined.

(** * Properties of the number model *)

#[local] Open Scope Z_scope.

(** The rounding of a ratio agrees with the library's division, and the
    conversion of an integer with the library's normalisation. *)
Lemma round_ratio_agrees :
  Num.round_ratio 1 10 = Num.div (S754_finite false 1 0) (S754_finite false 10 0) /\
  Num.round_ratio 35 100
    = Num.div (S754_finite false 35 0) (S754_finite false 100 0) /\
  Num.round_ratio 2 3 = Num.div (S754_finite false 2 0) (S754_finite false 3 0) /\
  Num.round_ratio 5 (10 ^ 324)
    = Num.div (S754_finite false 5 0)
              (S754_finite false (Z.to_pos (10 ^ 324)) 0) /\
  Num.of_Z (2 ^ 60 + 1) = binary_normalize Num.prec Num.emax (2 ^ 60 + 1) 0 false /\
  Num.of_Z (2 ^ 53 + 3) = binary_normalize Num.prec Num.emax (2 ^ 53 + 3) 0 false /\
  Num.of_Z (- 7) = binary_normalize Num.prec Num.emax (- 7) 0 false /\
  Num.of_Z (2 ^ 1024) = binary_normalize Num.prec Num.emax (2 ^ 1024) 0 false.
Proof. repeat split; vm_compute; reflexivity. Qed.

(** ** Strings and decimal digits *)

Lemma append_cons (c : ascii) (s1 s2 : string) :
  String c s1 +:+ s2 = String c (s1 +:+ s2).
Proof. reflexivity. Qed.

Lemma append_nil_l (s : string) : "" +:+ s = s.
Proof. reflexivity. Qed.

Lemma append_nil_r (s : string) : s +:+ "" = s.
Proof. induction s as [|c s IH]; [done|]. by rewrite append_cons, IH. Qed.

Lemma append_assoc (s1 s2 s3 : string) : (s1 +:+ s2) +:+ s3 = s1 +:+ (s2 +:+ s3).
Proof. induction s1 as [|c s1 IH]; [done|]. by rewrite !append_cons, IH. Qed.

Lemma length_append (s1 s2 : string) :
  String.length (s1 +:+ s2) = (String.length s1 + String.length s2)%nat.
Proof.
  induction s1 as [|c s1 IH]; [done|]. rewrite append_cons. simpl. by rewrite IH.
Qed.

Lemma string_take_append (s1 s2 : string) :
  Num.string_take (String.length s1) (s1 +:+ s2) = s1.
Proof.
  induction s1 as [|c s1 IH]; [by destruct s2|].
  rewrite append_cons. simpl. by rewrite IH.
Qed.

Lemma string_drop_append (s1 s2 : string) :
  Num.string_drop (String.length s1) (s1 +:+ s2) = s2.
Proof.
  induction s1 as [|c s1 IH]; [by destruct s2|]. by rewrite append_cons.
Qed.

Lemma length_zeros (n : nat) : String.length (Num.zeros n) = n.
Proof. induction n as [|n IH]; simpl; [done|]. by rewrite IH. Qed.

Lemma zeros_snoc (n : nat) : Num.zeros (S n) = Num.zeros n +:+ "0".
Proof.
  induction n as [|n IH]; [reflexivity|].
  change (String "0" (Num.zeros (S n)) = String "0" (Num.zeros n) +:+ "0").
  rewrite append_cons. f_equal. exact IH.
Qed.

Lemma pow10_pos (k : Z) : 0 <= k -> 0 < 10 ^ k.
Proof. intros. by apply Z.pow_pos_nonneg. Qed.

Lemma digits_fuel_S (f : nat) (n : Z) :
  Num.digits_fuel (S f) n
  = (if n <? 10 then EmptyString else Num.digits_fuel f (n / 10))
    +:+ String (Num.digit_char (n mod 10)) EmptyString.
Proof. reflexivity. Qed.

(** Enough fuel prints the same digits. *)
Lemma digits_fuel_enough (f1 f2 : nat) (n : Z) :
  0 <= n -> n < 10 ^ Z.of_nat (S f1) -> n < 10 ^ Z.of_nat (S f2) ->
  Num.digits_fuel (S f1) n = Num.digits_fuel (S f2) n.
Proof.
  revert f2 n. induction f1 as [|f1 IH]; intros f2 n Hn H1 H2.
  - rewrite !digits_fuel_S. destruct (n <? 10) eqn:Hlt; [done|].
    apply Z.ltb_ge in Hlt. change (10 ^ Z.of_nat 1) with 10 in H1. lia.
  - rewrite (digits_fuel_S (S f1)), (digits_fuel_S f2).
    destruct (n <? 10) eqn:Hlt; [done|].
    apply Z.ltb_ge in Hlt. destruct f2 as [|f2].
    { change (10 ^ Z.of_nat 1) with 10 in H2. lia. }
    rewrite (IH f2); [done | | |].
    + apply Z.div_pos; lia.
    + apply Z.div_lt_upper_bound; [lia|].
      rewrite <- Z.pow_succ_r by lia. by rewrite <- Nat2Z.inj_succ.
    + apply Z.div_lt_upper_bound; [lia|].
      rewrite <- Z.pow_succ_r by lia. by rewrite <- Nat2Z.inj_succ.
Qed.

Lemma lt_pow10_log2 (n : Z) : 0 <= n -> n < 10 ^ Z.of_nat (S (Z.to_nat (Z.log2 n))).
Proof.
  intros Hn. rewrite Nat2Z.inj_succ, Z2Nat.id by apply Z.log2_nonneg.
  destruct (Z.eq_dec n 0) as [->|Hne]; [done|].
  assert (n < 2 ^ Z.succ (Z.log2 n)) by (apply Z.log2_spec; lia).
  assert (2 ^ Z.succ (Z.log2 n) <= 10 ^ Z.succ (Z.log2 n)).
  { apply Z.pow_le_mono_l. lia. }
  lia.
Qed.

Lemma digits_of_fuel (f : nat) (n : Z) :
  0 <= n -> n < 10 ^ Z.of_nat (S f) -> Num.digits_of n = Num.digits_fuel (S f) n.
Proof.
  intros Hn Hf. unfold Num.digits_of.
  apply digits_fuel_enough; [done | by apply lt_pow10_log2 | done].
Qed.

Lemma digits_of_small (n : Z) :
  0 <= n < 10 -> Num.digits_of n = String (Num.digit_char n) "".
Proof.
  intros Hn. rewrite (digits_of_fuel 0) by (change (10 ^ Z.of_nat 1) with 10; lia).
  rewrite digits_fuel_S. rewrite (proj2 (Z.ltb_lt n 10)) by lia.
  rewrite Z.mod_small by lia. done.
Qed.

Lemma digits_of_step (n : Z) :
  10 <= n ->
  Num.digits_of n
  = Num.digits_of (n / 10) +:+ String (Num.digit_char (n mod 10)) "".
Proof.
  intros Hn. unfold Num.digits_of at 1. rewrite digits_fuel_S.
  rewrite (proj2 (Z.ltb_ge n 10)) by lia.
  destruct (Z.to_nat (Z.log2 n)) as [|f] eqn:Hf.
  { assert (Z.log2 n = 0) by (pose proof (Z.log2_nonneg n); lia).
    assert (n < 2 ^ Z.succ (Z.log2 n)) by (apply Z.log2_spec; lia).
    rewrite H in H0. change (2 ^ Z.succ 0) with 2 in H0. lia. }
  rewrite <- (digits_of_fuel f); [done | apply Z.div_pos; lia |].
  apply Z.div_lt_upper_bound; [lia|].
  rewrite <- Z.pow_succ_r by lia. rewrite <- Nat2Z.inj_succ, <- Hf.
  apply lt_pow10_log2. lia.
Qed.

(** A number with [k] digits. *)
Lemma length_digits_of (k : nat) (n : Z) :
  10 ^ Z.of_nat k <= n < 10 ^ Z.of_nat (S k) ->
  String.length (Num.digits_of n) = S k.
Proof.
  revert n. induction k as [|k IH]; intros n Hn.
  - change (10 ^ Z.of_nat 0) with 1 in Hn. change (10 ^ Z.of_nat 1) with 10 in Hn.
    rewrite digits_of_small by lia. done.
  - rewrite !Nat2Z.inj_succ, !Z.pow_succ_r in Hn by lia.
    assert (0 < 10 ^ Z.of_nat k) by (apply pow10_pos; lia).
    rewrite digits_of_step by lia.
    rewrite length_append, IH; [simpl; lia|].
    rewrite Nat2Z.inj_succ, Z.pow_succ_r by lia. split.
    + apply Z.div_le_lower_bound; lia.
    + apply Z.div_lt_upper_bound; lia.
Qed.

Lemma digits_of_mul10 (n : Z) :
  0 < n -> Num.digits_of (10 * n) = Num.digits_of n +:+ "0".
Proof.
  intros Hn. rewrite digits_of_step by lia.
  rewrite Z.mul_comm, Z.div_mul, Z.mod_mul by lia. done.
Qed.

Lemma digits_of_mul_pow10 (i : nat) (n : Z) :
  0 < n -> Num.digits_of (n * 10 ^ Z.of_nat i) = Num.digits_of n +:+ Num.zeros i.
Proof.
  intros Hn. induction i as [|i IH].
  - by rewrite Z.mul_1_r, append_nil_r.
  - rewrite Nat2Z.inj_succ, Z.pow_succ_r by lia.
    assert (0 < 10 ^ Z.of_nat i) by (apply pow10_pos; lia).
    replace (n * (10 * 10 ^ Z.of_nat i)) with (10 * (n * 10 ^ Z.of_nat i)) by lia.
    rewrite digits_of_mul10 by lia. rewrite IH, zeros_snoc.
    by rewrite append_assoc.
Qed.

(** ** Rounding to binary64 *)

Lemma nearest_even_spec (a b : Z) :
  0 < b ->
  a / b <= Num.nearest_even a b <= a / b + 1 /\
  2 * Z.abs (Num.nearest_even a b * b - a) <= b.
Proof.
  intros Hb. unfold Num.nearest_even.
  pose proof (Z.div_mod a b ltac:(lia)) as Hdiv.
  pose proof (Z.mod_pos_bound a b Hb) as Hmod.
  destruct (Z.compare_spec (2 * (a mod b)) b) as [Heq|Hlt|Hgt].
  - destruct (Z.even (a / b)); split; try lia; nia.
  - split; [lia|nia].
  - split; [lia|nia].
Qed.

Lemma pow2_pos (k : Z) : 0 <= k -> 0 < 2 ^ k.
Proof. intros. by apply Z.pow_pos_nonneg. Qed.

(** A ratio in [[1, 2^52)] rounds to a finite number with a 53-bit mantissa
    and a non-positive exponent, at most half a unit away. *)
Lemma round_ratio_spec (a b : Z) :
  0 < b -> b <= a -> a < b * 2 ^ 52 ->
  exists (p : positive) (e : Z),
    Num.round_ratio a b = S754_finite false p e /\
    -53 <= e <= 0 /\
    2 ^ 52 <= Zpos p < 2 ^ 53 /\
    2 * Z.abs (Zpos p * b - a * 2 ^ (- e)) <= b.
Proof.
  intros Hb Hba Hab.
  pose proof (Z.log2_spec a ltac:(lia)) as [Hla1 Hla2].
  pose proof (Z.log2_spec b ltac:(lia)) as [Hlb1 Hlb2].
  pose proof (Z.log2_nonneg b) as Hlb0.
  assert (Z.log2 b <= Z.log2 a) as Hle by (apply Z.log2_le_mono; lia).
  assert (Z.log2 a <= Z.log2 b + 52) as Hle2.
  { enough (Z.log2 a < Z.log2 b + 53) by lia.
    apply Z.log2_lt_pow2; [lia|].
    replace (Z.log2 b + 53) with (Z.succ (Z.log2 b) + 52) by lia.
    rewrite Z.pow_add_r by lia. nia. }
  unfold Num.round_ratio.
  set (u := Z.log2 b + 53 - Z.log2 a).
  replace (Z.log2 a - Z.log2 b - 53) with (- u) by (unfold u; lia).
  assert (1 <= u <= 53) as Hu by (unfold u; lia).
  rewrite (Z.max_r 0 (- - u)), (Z.max_l 0 (- u)) by lia.
  rewrite Z.opp_involutive, Z.pow_0_r, Z.mul_1_r.
  (* the scaled numerator lies between 2^52 b and 2^54 b *)
  assert (2 ^ 52 * b < a * 2 ^ u) as Hlow.
  { assert (2 ^ Z.log2 a * 2 ^ u = 2 ^ 52 * 2 ^ Z.succ (Z.log2 b)) as E.
    { rewrite <- !Z.pow_add_r by lia. f_equal. unfold u. lia. }
    assert (0 < 2 ^ u) by (apply pow2_pos; lia). nia. }
  assert (a * 2 ^ u < 2 ^ 54 * b) as Hhigh.
  { assert (2 ^ Z.succ (Z.log2 a) * 2 ^ u = 2 ^ 54 * 2 ^ Z.log2 b) as E.
    { rewrite <- !Z.pow_add_r by lia. f_equal. unfold u. lia. }
    assert (0 < 2 ^ u) by (apply pow2_pos; lia). nia. }
  assert (2 ^ u = 2 * 2 ^ (u - 1)) as Hhalf.
  { rewrite <- Z.pow_succ_r by lia. f_equal. lia. }
  assert (0 < 2 ^ (u - 1)) as Hpos by (apply pow2_pos; lia).
  destruct (a * 2 ^ u / b <? 2 ^ 53) eqn:Hq.
  - (* the quotient has 53 bits at the exponent [- u] *)
    apply Z.ltb_lt in Hq.
    assert (2 ^ 52 <= a * 2 ^ u / b) by (apply Z.div_le_lower_bound; lia).
    rewrite (Z.max_l (- u) (-1074)) by lia.
    rewrite (Z.max_r 0 (- - u)), (Z.max_l 0 (- u)) by lia.
    rewrite Z.opp_involutive, Z.pow_0_r, Z.mul_1_r.
    destruct (nearest_even_spec (a * 2 ^ u) b Hb) as [Hm Herr].
    set (m := Num.nearest_even (a * 2 ^ u) b) in *.
    destruct (m =? 2 ^ 53) eqn:Hm53.
    + apply Z.eqb_eq in Hm53. exists (Z.to_pos (2 ^ 52)), (- u + 1).
      change (2 ^ 52) with (Zpos (Z.to_pos (2 ^ 52))) at 1.
      rewrite (proj2 (Z.leb_le (- u + 1) 971)) by lia.
      split; [done|]. split; [lia|]. split; [done|].
      replace (- (- u + 1)) with (u - 1) by lia.
      change (Z.pos (Z.to_pos (2 ^ 52))) with (2 ^ 52). rewrite Hm53 in Herr.
      change (2 ^ 53) with (2 * 2 ^ 52) in Herr. nia.
    + apply Z.eqb_neq in Hm53. destruct m as [|p|p] eqn:Hmp; try lia.
      exists p, (- u). rewrite (proj2 (Z.leb_le (- u) 971)) by lia.
      split; [done|]. split; [lia|]. split; [lia|].
      by rewrite Z.opp_involutive.
  - (* one more bit: the exponent is [- u + 1] *)
    apply Z.ltb_ge in Hq.
    assert (2 ^ 53 * b <= a * 2 ^ u).
    { pose proof (Z.mul_div_le (a * 2 ^ u) b Hb). nia. }
    assert (2 <= u).
    { destruct (Z.eq_dec u 1) as [E|]; [|lia]. rewrite E in *.
      change (2 ^ 1) with 2 in *. lia. }
    rewrite (Z.max_l (- u + 1) (-1074)) by lia.
    rewrite (Z.max_r 0 (- (- u + 1))), (Z.max_l 0 (- u + 1)) by lia.
    replace (- (- u + 1)) with (u - 1) by lia. rewrite Z.pow_0_r, Z.mul_1_r.
    assert (2 ^ 52 <= a * 2 ^ (u - 1) / b) by (apply Z.div_le_lower_bound; lia).
    assert (a * 2 ^ (u - 1) / b < 2 ^ 53) by (apply Z.div_lt_upper_bound; lia).
    destruct (nearest_even_spec (a * 2 ^ (u - 1)) b Hb) as [Hm Herr].
    set (m := Num.nearest_even (a * 2 ^ (u - 1)) b) in *.
    assert (2 ^ (u - 1) = 2 * 2 ^ (u - 2)) as Hhalf2.
    { rewrite <- Z.pow_succ_r by lia. f_equal. lia. }
    assert (0 < 2 ^ (u - 2)) by (apply pow2_pos; lia).
    destruct (m =? 2 ^ 53) eqn:Hm53.
    + apply Z.eqb_eq in Hm53. exists (Z.to_pos (2 ^ 52)), (- u + 1 + 1).
      change (2 ^ 52) with (Zpos (Z.to_pos (2 ^ 52))) at 1.
      rewrite (proj2 (Z.leb_le (- u + 1 + 1) 971)) by lia.
      split; [done|]. split; [lia|]. split; [done|].
      replace (- (- u + 1 + 1)) with (u - 2) by lia.
      change (Z.pos (Z.to_pos (2 ^ 52))) with (2 ^ 52). rewrite Hm53 in Herr.
      change (2 ^ 53) with (2 * 2 ^ 52) in Herr. nia.
    + apply Z.eqb_neq in Hm53. destruct m as [|p|p] eqn:Hmp; try lia.
      exists p, (- u + 1). rewrite (proj2 (Z.leb_le (- u + 1) 971)) by lia.
      split; [done|]. split; [lia|]. split; [lia|].
      by replace (- (- u + 1)) with (u - 1) by lia.
Qed.

Lemma fraction_nonpos (p : positive) (e : Z) :
  e <= 0 -> Num.fraction p e = (Zpos p, 2 ^ (- e)).
Proof.
  intros He. unfold Num.fraction.
  rewrite (Z.max_l 0 e), (Z.max_r 0 (- e)) by lia. by rewrite Z.mul_1_r.
Qed.

(** When the ratio is an integer it is represented exactly. *)
Lemma round_ratio_exact (b q : Z) :
  0 < b -> 1 <= q < 2 ^ 52 ->
  exists (p : positive) (e : Z),
    Num.round_ratio (q * b) b = S754_finite false p e /\
    -53 <= e <= 0 /\ Zpos p = q * 2 ^ (- e).
Proof.
  intros Hb Hq.
  destruct (round_ratio_spec (q * b) b) as (p & e & Hround & He & Hp & Herr);
    [lia | nia | nia |].
  exists p, e. split; [done|]. split; [done|].
  assert (0 < 2 ^ (- e)) by (apply pow2_pos; lia). nia.
Qed.

Lemma of_Z_exact (N : Z) :
  1 <= N < 2 ^ 52 ->
  exists (p : positive) (e : Z),
    Num.of_Z N = S754_finite false p e /\
    -53 <= e <= 0 /\ Zpos p = N * 2 ^ (- e).
Proof.
  intros HN. destruct (round_ratio_exact 1 N) as (p & e & Hround & He & Hp);
    [lia | done |].
  exists p, e. split; [|done].
  rewrite Z.mul_1_r in Hround. destruct N; try lia. exact Hround.
Qed.

(** Two positive numbers with non-positive exponents have the same value
    when their mantissas agree at a common denominator. *)
Lemma same_value_nonpos (p1 p2 : positive) (e1 e2 : Z) :
  e1 <= 0 -> e2 <= 0 ->
  Num.same_value (S754_finite false p1 e1) (S754_finite false p2 e2)
  = (Zpos p1 * 2 ^ (- e2) =? Zpos p2 * 2 ^ (- e1)).
Proof.
  intros He1 He2. unfold Num.same_value.
  by rewrite !fraction_nonpos by done.
Qed.

(** Comparing an exactly represented integer with an integer value. *)
Lemma same_value_of_integer (C N : Z) (p : positive) (e : Z) :
  1 <= C < 2 ^ 52 -> e <= 0 -> Zpos p = N * 2 ^ (- e) ->
  Num.same_value (Num.of_Z C) (S754_finite false p e) = (C =? N).
Proof.
  intros HC He Hp. destruct (of_Z_exact C HC) as (p' & e' & -> & He' & Hp').
  rewrite same_value_nonpos by lia. rewrite Hp, Hp'.
  assert (0 < 2 ^ (- e)) by (apply pow2_pos; lia).
  assert (0 < 2 ^ (- e')) by (apply pow2_pos; lia).
  destruct (Z.eqb_spec C N) as [->|Hne].
  - apply Z.eqb_eq. lia.
  - apply Z.eqb_neq. intros Heq. apply Hne.
    apply (Z.mul_cancel_r _ _ (2 ^ (- e') * 2 ^ (- e))); lia.
Qed.

Lemma of_decimal_integer (c j : Z) :
  0 < c -> 0 <= j -> Num.of_decimal c j = Num.of_Z (c * 10 ^ j).
Proof.
  intros Hc Hj. unfold Num.of_decimal.
  rewrite (proj2 (Z.leb_gt c 0)) by lia.
  rewrite (Z.max_r 0 j), (Z.max_l 0 (- j)) by lia.
  assert (0 < 10 ^ j) by (apply pow10_pos; lia).
  unfold Num.of_Z. destruct (c * 10 ^ j) eqn:E; try lia. done.
Qed.

(** The integer part of a value [N] and of its decimal shifts. *)
Lemma scaled_integer (p : positive) (e N j : Z) :
  e <= 0 -> Zpos p = N * 2 ^ (- e) -> 0 <= j ->
  fst (Num.scaled p e j) = N / 10 ^ j.
Proof.
  intros He Hp Hj. unfold Num.scaled. rewrite fraction_nonpos by done.
  cbn [fst]. rewrite (Z.max_l 0 (- j)), (Z.max_r 0 j) by lia.
  rewrite Z.pow_0_r, Z.mul_1_r, Hp.
  assert (0 < 2 ^ (- e)) by (apply pow2_pos; lia).
  assert (0 < 10 ^ j) by (apply pow10_pos; lia).
  rewrite (Z.mul_comm (2 ^ (- e))). rewrite Z.div_mul_cancel_r; lia.
Qed.

(** The digits of a positive number and its magnitude. *)
Lemma digits_of_bounds (n : Z) :
  1 <= n ->
  10 ^ (Z.of_nat (String.length (Num.digits_of n)) - 1) <= n
  < 10 ^ Z.of_nat (String.length (Num.digits_of n)).
Proof.
  intros Hn.
  assert (exists k : nat, 10 ^ Z.of_nat k <= n < 10 ^ Z.of_nat (S k)) as [k Hk].
  { assert (forall f : nat, forall n, 1 <= n < 10 ^ Z.of_nat (S f) ->
              exists k : nat, 10 ^ Z.of_nat k <= n < 10 ^ Z.of_nat (S k)) as Hall.
    { clear. induction f as [|f IH]; intros n Hn.
      - exists 0%nat. change (10 ^ Z.of_nat 0) with 1. lia.
      - destruct (Z_lt_dec n (10 ^ Z.of_nat (S f))) as [Hlt|Hge].
        + apply IH. lia.
        + exists (S f). lia. }
    apply (Hall (Z.to_nat (Z.log2 n))). split; [done|].
    apply lt_pow10_log2. lia. }
  rewrite (length_digits_of k) by done.
  replace (Z.of_nat (S k) - 1) with (Z.of_nat k) by lia. done.
Qed.

Lemma strip10_spec (fuel : nat) (c : Z) :
  0 < c ->
  0 < Num.strip10 fuel c /\
  exists t : nat, c = Num.strip10 fuel c * 10 ^ Z.of_nat t.
Proof.
  revert c. induction fuel as [|fuel IH]; intros c Hc; simpl.
  - split; [done|]. exists 0%nat. change (10 ^ Z.of_nat 0) with 1. lia.
  - rewrite (proj2 (Z.ltb_lt 0 c)) by done. simpl.
    destruct (Z.eqb_spec (c mod 10) 0) as [Hmod|Hmod].
    + assert (c = 10 * (c / 10)) as Hc10.
      { pose proof (Z.div_mod c 10 ltac:(lia)). lia. }
      destruct (IH (c / 10)) as [Hpos [t Ht]]; [lia|].
      split; [done|]. exists (S t).
      rewrite Nat2Z.inj_succ, Z.pow_succ_r by lia. lia.
    + split; [done|]. exists 0%nat. change (10 ^ Z.of_nat 0) with 1. lia.
Qed.

(** ** Printing an integer value *)

Section IntegerPrinting.
Variables (p : positive) (e N : Z).
Hypothesis He : e <= 0.
Hypothesis Hp : Zpos p = N * 2 ^ (- e).
Hypothesis HN : 1 <= N < 2 ^ 51.

Let d : Z := Z.of_nat (String.length (Num.digits_of N)).

Lemma integer_digits_bounds : 1 <= d <= 16 /\ 10 ^ (d - 1) <= N < 10 ^ d.
Proof.
  pose proof (digits_of_bounds N ltac:(lia)) as Hd. fold d in Hd.
  split; [|done]. split.
  - destruct (Z_le_dec d 0) as [Hle|]; [|lia].
    assert (d = 0) as E by lia. rewrite E in Hd.
    change (10 ^ 0) with 1 in Hd. lia.
  - destruct (Z_le_dec d 16) as [|Hgt]; [done|].
    assert (10 ^ 16 <= 10 ^ (d - 1)) by (apply Z.pow_le_mono_r; lia).
    change (10 ^ 16) with 10000000000000000 in *.
    change (2 ^ 51) with 2251799813685248 in *. lia.
Qed.

Lemma dec_exponent_integer : Num.dec_exponent p e = d.
Proof.
  unfold Num.dec_exponent.
  rewrite (scaled_integer p e N 0) by (done || lia).
  change (10 ^ 0) with 1. rewrite Z.div_1_r.
  by rewrite (proj2 (Z.leb_le 1 N)) by lia.
Qed.

Lemma candidate_integer (k : Z) :
  1 <= k <= d ->
  Num.candidate p e d k
  = if N / 10 ^ (d - k) * 10 ^ (d - k) =? N
    then Some (N / 10 ^ (d - k)) else None.
Proof.
  intros Hk. destruct integer_digits_bounds as [Hd HNd].
  unfold Num.candidate.
  pose proof (scaled_integer p e N (d - k) He Hp ltac:(lia)) as Hlo.
  destruct (Num.scaled p e (d - k)) as [lo half]. cbn [fst] in Hlo. subst lo.
  set (j := d - k) in *.
  assert (0 < 10 ^ j) as Hpow by (apply pow10_pos; lia).
  assert (10 ^ j <= N) as Hle.
  { assert (10 ^ j <= 10 ^ (d - 1)) by (apply Z.pow_le_mono_r; lia). lia. }
  pose proof (Z.div_mod N (10 ^ j) ltac:(lia)) as Hdiv.
  pose proof (Z.mod_pos_bound N (10 ^ j) Hpow) as Hmod.
  assert (1 <= N / 10 ^ j) by (apply Z.div_le_lower_bound; lia).
  change (2 ^ 51) with 2251799813685248 in HN.
  rewrite !of_decimal_integer by lia.
  rewrite (same_value_of_integer _ N) by (done || (change (2 ^ 52) with 4503599627370496; nia)).
  rewrite (same_value_of_integer _ N) by (done || (change (2 ^ 52) with 4503599627370496; nia)).
  assert (((N / 10 ^ j + 1) * 10 ^ j =? N) = false) as -> by (apply Z.eqb_neq; nia).
  by destruct (N / 10 ^ j * 10 ^ j =? N).
Qed.

Lemma shortest_from_integer (fuel : nat) (k : Z) :
  1 <= k <= d -> d - k < Z.of_nat fuel ->
  k <= snd (Num.shortest_from fuel p e d k) <= d /\
  fst (Num.shortest_from fuel p e d k)
  * 10 ^ (d - snd (Num.shortest_from fuel p e d k)) = N.
Proof.
  revert k. induction fuel as [|fuel IH]; intros k Hk Hfuel; [lia|].
  cbn [Num.shortest_from]. rewrite candidate_integer by done.
  destruct (Z.eqb_spec (N / 10 ^ (d - k) * 10 ^ (d - k)) N) as [Heq|Hne].
  - cbn [fst snd]. split; [lia|done].
  - assert (k <> d) as Hkd.
    { intros ->. apply Hne. rewrite Z.sub_diag. change (10 ^ 0) with 1.
      rewrite Z.div_1_r. lia. }
    destruct (IH (k + 1)) as [Hk' Hc]; [lia | lia |]. split; [lia|done].
Qed.

(** The digits printed for a value that is the integer [N] are the digits
    of [N]. *)
Lemma toString_pos_integer : Num.toString_pos p e = Num.digits_of N.
Proof.
  destruct integer_digits_bounds as [Hd HNd].
  destruct (shortest_from_integer 17 1) as [Hk Hc]; [lia | lia |].
  unfold Num.toString_pos, Num.shortest. rewrite dec_exponent_integer.
  destruct (Num.shortest_from 17 p e d 1) as [c k]. cbn [fst snd] in Hk, Hc.
  assert (0 < 10 ^ (d - k)) as Hpow by (apply pow10_pos; lia).
  assert (0 < 10 ^ k) as Hpowk by (apply pow10_pos; lia).
  assert (10 ^ d = 10 ^ k * 10 ^ (d - k)) as Hsplit.
  { rewrite <- Z.pow_add_r by lia. f_equal. lia. }
  assert (0 < c) as Hcpos by nia.
  assert (c < 10 ^ k) as Hclt by nia.
  rewrite (proj2 (Z.eqb_neq c (10 ^ k))) by lia.
  destruct (strip10_spec 20 c Hcpos) as [Hspos [t Ht]].
  set (c' := Num.strip10 20 c) in *.
  assert (Num.digits_of N
          = Num.digits_of c' +:+ Num.zeros (t + Z.to_nat (d - k))) as Hdigits.
  { rewrite <- digits_of_mul_pow10 by done. f_equal.
    rewrite Nat2Z.inj_add, Z2Nat.id by lia.
    rewrite Z.pow_add_r by lia. rewrite <- Hc, Ht. lia. }
  assert (d = Z.of_nat (String.length (Num.digits_of c'))
              + Z.of_nat (t + Z.to_nat (d - k))) as Hlen.
  { unfold d at 1. rewrite Hdigits, length_append, length_zeros. lia. }
  rewrite (proj2 (Z.leb_le _ d)) by lia.
  rewrite (proj2 (Z.leb_le d 21)) by lia. simpl.
  rewrite Hdigits. f_equal. f_equal. lia.
Qed.
End IntegerPrinting.

(** ** [Math.round] followed by [toString] *)

(** [round_half_up] is an integer nearest to the value. *)
Lemma round_half_up_nearest (s : bool) (m : positive) (e : Z) :
  let '(P, Q) := Num.fraction m e in
  2 * Z.abs (Num.round_half_up s m e * Q - (if s then - P else P)) <= Q.
Proof.
  unfold Num.round_half_up. destruct (Num.fraction m e) as [P Q] eqn:E.
  assert (0 < Q) as HQ.
  { unfold Num.fraction in E. injection E as _ <-. apply pow2_pos. lia. }
  set (v := if s then - P else P).
  pose proof (Z.div_mod (2 * v + Q) (2 * Q) ltac:(lia)) as Hdiv.
  pose proof (Z.mod_pos_bound (2 * v + Q) (2 * Q) ltac:(lia)) as Hmod.
  lia.
Qed.

Lemma fraction_pos (m : positive) (e : Z) :
  0 < fst (Num.fraction m e) /\ 0 < snd (Num.fraction m e).
Proof.
  unfold Num.fraction. cbn [fst snd].
  assert (0 < 2 ^ Z.max 0 e) by (apply pow2_pos; lia).
  assert (0 < 2 ^ Z.max 0 (- e)) by (apply pow2_pos; lia). lia.
Qed.

Lemma toString_of_Z (r : Z) :
  Z.abs r < 2 ^ 51 ->
  Num.toString (if r =? 0 then S754_zero (r <? 0) else Num.of_Z r)
  = render_integer r.
Proof.
  intros Hr. unfold render_integer. destruct (Z.eqb_spec r 0) as [->|Hne]; [done|].
  destruct (Z.ltb_spec r 0) as [Hneg|Hpos].
  - destruct (of_Z_exact (- r)) as (p & e & Hof & He & Hp).
    { change (2 ^ 52) with (2 * 2 ^ 51). lia. }
    assert (Num.of_Z r = S754_finite true p e) as ->.
    { unfold Num.of_Z in *. destruct r as [|r|r]; try lia.
      simpl in Hof. simpl. by rewrite Hof. }
    cbn [Num.toString]. f_equal.
    rewrite (toString_pos_integer p e (- r)) by (done || lia).
    f_equal. lia.
  - destruct (of_Z_exact r) as (p & e & -> & He & Hp).
    { change (2 ^ 52) with (2 * 2 ^ 51). lia. }
    cbn [Num.toString]. f_equal.
    rewrite (toString_pos_integer p e r) by (done || lia).
    f_equal. lia.
Qed.

(** When the integer nearest to [x] is below [2^51] in magnitude,
    [Math.round(x).toString()] is that integer in decimal digits. *)
Lemma toString_Math_round (x : Num.number) (r : Z) :
  nearest_integer x = Some r -> Z.abs r < 2 ^ 51 ->
  Num.toString (Num.Math_round x) = render_integer r.
Proof.
  destruct x as [s|s| |s m e]; try done.
  - intros [= <-] _. done.
  - intros [= <-] Hr. cbn [Num.Math_round].
    set (r := Num.round_half_up s m e) in *.
    rewrite <- toString_of_Z by done.
    destruct (Z.eqb_spec r 0) as [Hz|Hnz]; [|done].
    done.
Qed.

(** ** Reading back what [toFixed(1)] prints *)

Lemma digit_char_digit (b : Z) :
  0 <= b <= 9 ->
  Num.is_digit (Num.digit_char b) = true /\
  Z.of_nat (nat_of_ascii (Num.digit_char b)) - 48 = b.
Proof.
  intros Hb.
  assert (b = 0 \/ b = 1 \/ b = 2 \/ b = 3 \/ b = 4 \/ b = 5 \/ b = 6 \/
          b = 7 \/ b = 8 \/ b = 9) as Hcases by lia.
  repeat (destruct Hcases as [->|Hcases]; [by vm_compute|]).
  subst b. by vm_compute.
Qed.

(** Induction over the decimal digits of a natural number. *)
Lemma digits_ind (P : Z -> Prop) :
  (forall a, 0 <= a < 10 -> P a) ->
  (forall a, 10 <= a -> P (a / 10) -> P a) ->
  forall a, 0 <= a -> P a.
Proof.
  intros Hsmall Hstep.
  assert (forall (k : nat) (a : Z), 0 <= a < 10 ^ Z.of_nat k -> P a) as Hall.
  { induction k as [|k IH]; intros a Ha.
    - change (10 ^ Z.of_nat 0) with 1 in Ha. apply Hsmall. lia.
    - destruct (Z_lt_dec a 10) as [Hlt|Hge]; [apply Hsmall; lia|].
      apply Hstep; [lia|]. apply IH.
      rewrite Nat2Z.inj_succ, Z.pow_succ_r in Ha by lia. split.
      + apply Z.div_pos; lia.
      + apply Z.div_lt_upper_bound; lia. }
  intros a Ha. apply (Hall (S (Z.to_nat (Z.log2 a)))). split; [done|].
  by apply lt_pow10_log2.
Qed.

Lemma all_digits_append (s1 s2 : string) :
  all_digits (s1 +:+ s2) = all_digits s1 && all_digits s2.
Proof.
  induction s1 as [|c s1 IH]; [done|].
  rewrite append_cons. cbn [all_digits]. rewrite IH. by rewrite andb_assoc.
Qed.

Lemma all_digits_digits_of (a : Z) : 0 <= a -> all_digits (Num.digits_of a) = true.
Proof.
  revert a. apply digits_ind.
  - intros a Ha. rewrite digits_of_small by done. cbn [all_digits].
    by rewrite (proj1 (digit_char_digit a ltac:(lia))).
  - intros a Ha IH. rewrite digits_of_step by done.
    rewrite all_digits_append, IH. cbn [all_digits].
    pose proof (Z.mod_pos_bound a 10 ltac:(lia)).
    by rewrite (proj1 (digit_char_digit (a mod 10) ltac:(lia))).
Qed.

Lemma digits_of_nonempty (a : Z) :
  0 <= a -> exists c s, Num.digits_of a = String c s /\ Num.is_digit c = true.
Proof.
  intros Ha. pose proof (all_digits_digits_of a Ha) as Hall.
  destruct (Num.digits_of a) as [|c s] eqn:E.
  - exfalso. destruct (Z_lt_dec a 10).
    + rewrite digits_of_small in E by lia. done.
    + rewrite digits_of_step in E by lia.
      destruct (Num.digits_of (a / 10)); done.
  - exists c, s. split; [done|]. cbn [all_digits] in Hall.
    by apply andb_true_iff in Hall as [? _].
Qed.

(** The digits are read up to the first character that is not a digit. *)
Lemma span_digits_append (s rest : string) :
  all_digits s = true ->
  match rest with String c _ => Num.is_digit c = false | EmptyString => True end ->
  Num.span_digits (s +:+ rest) = (s, rest).
Proof.
  intros Hs Hrest. induction s as [|c s IH].
  - rewrite append_nil_l. destruct rest as [|c rest]; [done|].
    cbn [Num.span_digits]. by rewrite Hrest.
  - rewrite append_cons. cbn [all_digits Num.span_digits] in *.
    apply andb_true_iff in Hs as [Hc Hs].
    rewrite Hc, IH by done. done.
Qed.

Lemma digits_value_append (acc : Z) (s1 s2 : string) :
  Num.digits_value acc (s1 +:+ s2) = Num.digits_value (Num.digits_value acc s1) s2.
Proof.
  revert acc. induction s1 as [|c s1 IH]; intros acc; [done|].
  rewrite append_cons. cbn [Num.digits_value]. by rewrite IH.
Qed.

Lemma digits_value_digits_of (a : Z) :
  0 <= a -> Num.digits_value 0 (Num.digits_of a) = a.
Proof.
  revert a. apply digits_ind.
  - intros a Ha. rewrite digits_of_small by done. cbn [Num.digits_value].
    rewrite (proj2 (digit_char_digit a ltac:(lia))). lia.
  - intros a Ha IH. rewrite digits_of_step by done.
    rewrite digits_value_append, IH. cbn [Num.digits_value].
    pose proof (Z.mod_pos_bound a 10 ltac:(lia)).
    rewrite (proj2 (digit_char_digit (a mod 10) ltac:(lia))).
    pose proof (Z.div_mod a 10 ltac:(lia)). lia.
Qed.

(** A text that starts with a digit has no sign and is not [Infinity]. *)
Lemma parseFloat_digit (c : ascii) (s : string) :
  Num.is_digit c = true ->
  Num.parseFloat (String c s) = Num.parse_unsigned false (String c s) /\
  String.prefix "Infinity" (String c s) = false.
Proof.
  destruct c as [[] [] [] [] [] [] [] []]; try discriminate; intros _; done.
Qed.

(** Steps 9 to 11 of [toFixed] for one fraction digit. *)
Lemma fixed_string_1 (n : Z) :
  0 <= n ->
  Num.fixed_string n 1
  = Num.digits_of (n / 10) +:+ "." +:+ String (Num.digit_char (n mod 10)) "".
Proof.
  intros Hn. unfold Num.fixed_string. destruct (Z_lt_dec n 10) as [Hlt|Hge].
  - rewrite digits_of_small by lia. rewrite Z.div_small, Z.mod_small by lia.
    reflexivity.
  - rewrite digits_of_step by lia.
    set (a := Num.digits_of (n / 10)). set (b := String _ "").
    assert (exists c s, a = String c s) as (c & s & Ha).
    { destruct (digits_of_nonempty (n / 10)) as (c & s & ? & _); [|by eauto].
      apply Z.div_pos; lia. }
    assert (String.length (a +:+ b) = S (String.length a)) as Hlen.
    { rewrite length_append. unfold b. cbn [String.length]. lia. }
    assert ((String.length (a +:+ b) <=? 1)%nat = false) as Hk.
    { apply Nat.leb_gt. rewrite Hlen, Ha. cbn [String.length]. lia. }
    cbv beta zeta iota. rewrite Hk, Hlen.
    replace (S (String.length a) - 1)%nat with (String.length a) by lia.
    by rewrite string_take_append, string_drop_append.
Qed.

(** What [parseFloat] reads from the digits of [a], a point and the digit
    [b]. *)
Lemma parse_unsigned_fixed (neg : bool) (a b : Z) :
  0 <= a -> 0 <= b <= 9 ->
  Num.parse_unsigned neg
    (Num.digits_of a +:+ "." +:+ String (Num.digit_char b) "")
  = if 10 * a + b =? 0 then S754_zero neg
    else Num.signed neg (Num.of_decimal (10 * a + b) (-1)).
Proof.
  intros Ha Hb. unfold Num.parse_unsigned.
  destruct (digits_of_nonempty a Ha) as (c & s & Hcs & Hc).
  destruct (digit_char_digit b Hb) as [Hdigit Hvalue].
  assert (String.prefix "Infinity"
            (Num.digits_of a +:+ "." +:+ String (Num.digit_char b) "") = false)
    as ->.
  { rewrite Hcs, append_cons. by apply parseFloat_digit. }
  rewrite span_digits_append by (by apply all_digits_digits_of || done).
  change ("." +:+ String (Num.digit_char b) "")
    with (String "." (String (Num.digit_char b) "")).
  cbn [Num.span_digits]. rewrite Hdigit.
  assert (Num.digits_value 0
            (Num.digits_of a +:+ String (Num.digit_char b) "") = 10 * a + b) as ->.
  { rewrite digits_value_append, digits_value_digits_of by done.
    cbn [Num.digits_value]. lia. }
  by destruct (Num.digits_of a).
Qed.

(** ** Printing a value with one decimal *)

Lemma same_value_refl (p : positive) (e : Z) :
  Num.same_value (S754_finite false p e) (S754_finite false p e) = true.
Proof.
  unfold Num.same_value. destruct (Num.fraction p e) as [P Q].
  cbn [Bool.eqb andb]. apply Z.eqb_eq. lia.
Qed.

Lemma same_value_of_Z (C : Z) (p : positive) (e : Z) :
  1 <= C < 2 ^ 52 -> e <= 0 ->
  Num.same_value (Num.of_Z C) (S754_finite false p e)
  = (C * 2 ^ (- e) =? Zpos p).
Proof.
  intros HC He. destruct (of_Z_exact C HC) as (p' & e' & -> & He' & Hp').
  rewrite same_value_nonpos by lia. rewrite Hp'.
  assert (0 < 2 ^ (- e)) by (apply pow2_pos; lia).
  assert (0 < 2 ^ (- e')) by (apply pow2_pos; lia).
  destruct (Z.eqb_spec (C * 2 ^ (- e)) (Zpos p)) as [Heq|Hne].
  - apply Z.eqb_eq. nia.
  - apply Z.eqb_neq. intros Heq. apply Hne.
    apply (Z.mul_cancel_r _ _ (2 ^ (- e'))); lia.
Qed.

Lemma scaled_fst (p : positive) (e j : Z) :
  e <= 0 -> 0 <= j ->
  fst (Num.scaled p e j) = Zpos p / (2 ^ (- e) * 10 ^ j).
Proof.
  intros He Hj. unfold Num.scaled. rewrite fraction_nonpos by done.
  cbn [fst]. rewrite (Z.max_l 0 (- j)), (Z.max_r 0 j) by lia.
  by rewrite Z.pow_0_r, Z.mul_1_r.
Qed.

Lemma scaled_fst_tenth (p : positive) (e : Z) :
  e <= 0 -> fst (Num.scaled p e (-1)) = Zpos p * 10 / 2 ^ (- e).
Proof.
  intros He. unfold Num.scaled. rewrite fraction_nonpos by done.
  cbn [fst]. rewrite (Z.max_r 0 (- -1)), (Z.max_l 0 (-1)) by lia.
  change (- -1) with 1. by rewrite Z.pow_0_r, Z.pow_1_r, Z.mul_1_r.
Qed.

Lemma of_decimal_tenth (c : Z) :
  0 < c -> Num.of_decimal c (-1) = Num.round_ratio c 10.
Proof.
  intros Hc. unfold Num.of_decimal. rewrite (proj2 (Z.leb_gt c 0)) by lia.
  rewrite (Z.max_l 0 (-1)), (Z.max_r 0 (- -1)) by lia.
  change (- -1) with 1. by rewrite Z.pow_0_r, Z.pow_1_r, Z.mul_1_r.
Qed.

(** A number of tenths below [10 * 2^48] is rounded with an error of less
    than a sixteenth, and hence of less than a tenth. *)
Lemma round_ratio_tenth (c : Z) :
  10 <= c < 10 * 2 ^ 48 ->
  exists (p : positive) (e : Z),
    Num.round_ratio c 10 = S754_finite false p e /\
    e <= 0 /\ 16 <= 2 ^ (- e) /\
    Z.abs (10 * Zpos p - c * 2 ^ (- e)) <= 5.
Proof.
  intros Hc. change (2 ^ 48) with 281474976710656 in Hc.
  destruct (round_ratio_spec c 10) as (p & e & Hround & He & Hp & Herr);
    [lia | lia | change (2 ^ 52) with 4503599627370496; lia |].
  exists p, e. split; [done|]. split; [lia|]. split; [|lia].
  change (2 ^ 52) with 4503599627370496 in Hp.
  destruct (Z_le_dec 4 (- e)) as [Hge|Hlt].
  - change 16 with (2 ^ 4). apply Z.pow_le_mono_r; lia.
  - assert (2 ^ (- e) <= 2 ^ 3) by (apply Z.pow_le_mono_r; lia).
    assert (0 < 2 ^ (- e)) by (apply pow2_pos; lia).
    change (2 ^ 3) with 8 in *. nia.
Qed.

Section TenthPrinting.
Variables (n : Z) (p : positive) (e : Z).
Hypothesis Hn : 11 <= n <= 10 * 2 ^ 47.
Hypothesis Hmod : n mod 10 <> 0.
Hypothesis Hround : Num.round_ratio n 10 = S754_finite false p e.

Let d : Z := Z.of_nat (String.length (Num.digits_of (n / 10))).

Lemma tenth_error :
  e <= 0 /\ 16 <= 2 ^ (- e) /\ Z.abs (10 * Zpos p - n * 2 ^ (- e)) <= 5.
Proof.
  destruct (round_ratio_tenth n) as (p' & e' & Hround' & H).
  { change (2 ^ 47) with 140737488355328 in Hn.
    change (2 ^ 48) with 281474976710656. lia. }
  rewrite Hround in Hround'. by injection Hround' as -> ->.
Qed.

Lemma tenth_whole : Zpos p / 2 ^ (- e) = n / 10.
Proof.
  destruct tenth_error as (He & HQ & Herr).
  pose proof (Z.div_mod n 10 ltac:(lia)) as Hdiv.
  pose proof (Z.mod_pos_bound n 10 ltac:(lia)) as Hb.
  symmetry. apply Z.div_unique with (r := Zpos p - n / 10 * 2 ^ (- e)); nia.
Qed.

Lemma tenth_digits_bounds :
  1 <= n / 10 < 2 ^ 48 /\ 1 <= d <= 15 /\ 10 ^ (d - 1) <= n / 10 < 10 ^ d.
Proof.
  change (2 ^ 47) with 140737488355328 in Hn.
  change (2 ^ 48) with 281474976710656.
  assert (1 <= n / 10 <= 140737488355328) as Ha.
  { split; [apply Z.div_le_lower_bound; lia | apply Z.div_le_upper_bound; lia]. }
  pose proof (digits_of_bounds (n / 10) ltac:(lia)) as Hd. fold d in Hd.
  split; [lia|]. split; [|done]. split.
  - destruct (Z_le_dec d 0) as [Hle|]; [|lia].
    assert (d = 0) as E by lia. rewrite E in Hd.
    change (10 ^ 0) with 1 in Hd. lia.
  - destruct (Z_le_dec d 15) as [|Hgt]; [done|].
    assert (10 ^ 15 <= 10 ^ (d - 1)) by (apply Z.pow_le_mono_r; lia).
    change (10 ^ 15) with 1000000000000000 in *. lia.
Qed.

Lemma dec_exponent_tenth : Num.dec_exponent p e = d.
Proof.
  destruct tenth_error as (He & _). destruct tenth_digits_bounds as (Ha & _).
  unfold Num.dec_exponent. rewrite scaled_fst by lia.
  change (10 ^ 0) with 1. rewrite Z.mul_1_r, tenth_whole.
  by rewrite (proj2 (Z.leb_le 1 (n / 10))) by lia.
Qed.

(** No decimal with integer digits only reads back as the value. *)
Lemma candidate_tenth_none (k : Z) :
  1 <= k <= d -> Num.candidate p e d k = None.
Proof.
  intros Hk. destruct tenth_error as (He & HQ & Herr).
  destruct tenth_digits_bounds as (Ha & Hd & Had).
  unfold Num.candidate.
  pose proof (scaled_fst p e (d - k) He ltac:(lia)) as Hlo.
  destruct (Num.scaled p e (d - k)) as [lo half]. cbn [fst] in Hlo.
  set (j := d - k) in *.
  assert (0 < 10 ^ j) as Hpow by (apply pow10_pos; lia).
  assert (0 < 2 ^ (- e)) as HQpos by lia.
  rewrite <- Z.div_div, tenth_whole in Hlo by lia. subst lo.
  assert (10 ^ j <= n / 10) as Hle.
  { assert (10 ^ j <= 10 ^ (d - 1)) by (apply Z.pow_le_mono_r; lia). lia. }
  pose proof (Z.div_mod (n / 10) (10 ^ j) ltac:(lia)) as Hdiv.
  pose proof (Z.mod_pos_bound (n / 10) (10 ^ j) Hpow) as Hmodj.
  assert (1 <= n / 10 / 10 ^ j) by (apply Z.div_le_lower_bound; lia).
  pose proof (Z.div_mod n 10 ltac:(lia)) as Hdiv10.
  pose proof (Z.mod_pos_bound n 10 ltac:(lia)) as Hb.
  change (2 ^ 48) with 281474976710656 in Ha.
  assert (forall C, 1 <= C < 2 ^ 52 ->
            Num.same_value (Num.of_Z C) (S754_finite false p e) = false) as Hno.
  { intros C HC. rewrite same_value_of_Z by done. apply Z.eqb_neq.
    intros Heq. apply Hmod.
    assert (10 * C = n) by nia. subst n. by rewrite Z.mul_comm, Z.mod_mul. }
  rewrite !of_decimal_integer by lia.
  rewrite !Hno by (change (2 ^ 52) with 4503599627370496; nia). done.
Qed.

(** The neighbours of [n] among the numbers of tenths read back as other
    values. *)
Lemma tenth_neighbour (c : Z) :
  c = n - 1 \/ c = n + 1 ->
  Num.same_value (Num.round_ratio c 10) (S754_finite false p e) = false.
Proof.
  intros Hc. destruct tenth_error as (He & HQ & Herr).
  destruct (round_ratio_tenth c) as (p' & e' & -> & He' & HQ' & Herr').
  { change (2 ^ 47) with 140737488355328 in Hn.
    change (2 ^ 48) with 281474976710656. lia. }
  rewrite same_value_nonpos by done. apply Z.eqb_neq. intros Heq.
  set (Q := 2 ^ (- e)) in *. set (Q' := 2 ^ (- e')) in *.
  assert (Z.abs ((c - n) * (Q * Q')) <= 5 * Q + 5 * Q') as Hbound by nia.
  assert (Z.abs ((c - n) * (Q * Q')) = Q * Q') as Habs.
  { destruct Hc as [-> | ->]; nia. }
  nia.
Qed.

Lemma candidate_tenth_some : Num.candidate p e d (d + 1) = Some n.
Proof.
  destruct tenth_error as (He & HQ & Herr).
  unfold Num.candidate.
  pose proof (scaled_fst_tenth p e He) as Hlo.
  replace (d - (d + 1)) with (-1) by lia.
  destruct (Num.scaled p e (-1)) as [lo half]. cbn [fst] in Hlo.
  assert (lo = n - 1 \/ lo = n) as Hcases.
  { assert (n - 1 <= lo) by (subst lo; apply Z.div_le_lower_bound; nia).
    assert (lo < n + 1) by (subst lo; apply Z.div_lt_upper_bound; nia). lia. }
  rewrite !of_decimal_tenth by lia.
  destruct Hcases as [-> | ->].
  - replace (n - 1 + 1) with n by lia.
    rewrite tenth_neighbour by auto. by rewrite Hround, same_value_refl.
  - rewrite (tenth_neighbour (n + 1)) by auto.
    by rewrite Hround, same_value_refl.
Qed.

Lemma shortest_from_tenth (fuel : nat) (k : Z) :
  1 <= k <= d + 1 -> d + 1 - k < Z.of_nat fuel ->
  Num.shortest_from fuel p e d k = (n, d + 1).
Proof.
  revert k. induction fuel as [|fuel IH]; intros k Hk Hfuel; [lia|].
  cbn [Num.shortest_from]. destruct (Z.eq_dec k (d + 1)) as [->|Hne].
  - by rewrite candidate_tenth_some.
  - rewrite candidate_tenth_none by lia. apply IH; lia.
Qed.

(** The value nearest to [n / 10] prints as the digits of [n / 10], a
    point and the last digit of [n]. *)
Lemma toString_pos_tenth :
  Num.toString_pos p e
  = Num.digits_of (n / 10) +:+ "." +:+ String (Num.digit_char (n mod 10)) "".
Proof.
  destruct tenth_digits_bounds as (Ha & Hd & Had).
  unfold Num.toString_pos, Num.shortest.
  rewrite dec_exponent_tenth, shortest_from_tenth by lia.
  assert (Num.strip10 20 n = n) as ->.
  { cbn [Num.strip10]. rewrite (proj2 (Z.eqb_neq (n mod 10) 0)) by done.
    by rewrite andb_false_r. }
  assert ((n =? 10 ^ (d + 1)) = false) as ->.
  { apply Z.eqb_neq. intros Heq. apply Hmod. rewrite Heq.
    rewrite Z.pow_add_r, Z.pow_1_r by lia. apply Z.mod_mul. lia. }
  rewrite digits_of_step by lia.
  set (a := Num.digits_of (n / 10)) in *. set (b := String _ "").
  assert (String.length (a +:+ b) = S (String.length a)) as Hlen.
  { rewrite length_append. unfold b. cbn [String.length]. lia. }
  rewrite Hlen. unfold d.
  rewrite (proj2 (Z.leb_gt _ _)) by lia. cbn [andb].
  rewrite (proj2 (Z.ltb_lt 0 _)) by (fold d; lia).
  rewrite (proj2 (Z.leb_le _ 21)) by (fold d; lia). cbn [andb].
  rewrite Nat2Z.id. by rewrite string_take_append, string_drop_append.
Qed.
End TenthPrinting.

(** ** [toFixed(1)], [parseFloat] and [toString] *)

(** [fixed_digits] is an integer nearest to ten times the magnitude. *)
Lemma fixed_digits_nearest (m : positive) (e : Z) :
  let '(P, Q) := Num.fraction m e in
  0 <= Num.fixed_digits m e 1 /\
  2 * Z.abs (Num.fixed_digits m e 1 * Q - 10 * P) <= Q.
Proof.
  unfold Num.fixed_digits. pose proof (fraction_pos m e) as [HP HQ].
  destruct (Num.fraction m e) as [P Q]. cbn [fst snd] in *.
  change (10 ^ Z.of_nat 1) with 10.
  pose proof (Z.div_mod (2 * P * 10 + Q) (2 * Q) ltac:(lia)) as Hdiv.
  pose proof (Z.mod_pos_bound (2 * P * 10 + Q) (2 * Q) ltac:(lia)) as Hmod.
  split; [apply Z.div_pos; lia | lia].
Qed.

Lemma signed_finite (neg : bool) (p : positive) (e : Z) :
  Num.signed neg (S754_finite false p e) = S754_finite neg p e.
Proof. by destruct neg. Qed.

(** The value nearest to [n / 10], printed. *)
Lemma toString_round_tenth (neg : bool) (n : Z) :
  1 <= n <= 10 * 2 ^ 47 ->
  Num.toString (Num.signed neg (Num.round_ratio n 10))
  = (if neg then "-" else "")
    +:+ Num.digits_of (n / 10)
    +:+ (if n mod 10 =? 0 then ""
         else "." +:+ String (Num.digit_char (n mod 10)) "").
Proof.
  intros Hn. destruct (Z_lt_dec n 10) as [Hsmall|Hlarge].
  { assert (n = 1 \/ n = 2 \/ n = 3 \/ n = 4 \/ n = 5 \/ n = 6 \/ n = 7 \/
            n = 8 \/ n = 9) as Hcases by lia.
    repeat (destruct Hcases as [->|Hcases]; [by destruct neg; vm_compute|]).
    subst n. by destruct neg; vm_compute. }
  change (2 ^ 47) with 140737488355328 in Hn.
  pose proof (Z.div_mod n 10 ltac:(lia)) as Hdiv.
  pose proof (Z.mod_pos_bound n 10 ltac:(lia)) as Hb.
  destruct (Z.eqb_spec (n mod 10) 0) as [Hzero|Hnonzero].
  - destruct (round_ratio_exact 10 (n / 10)) as (p & e & Hround & He & Hp).
    { lia. }
    { change (2 ^ 52) with 4503599627370496. lia. }
    replace (n / 10 * 10) with n in Hround by lia.
    rewrite Hround, signed_finite. cbn [Num.toString].
    rewrite (toString_pos_integer p e (n / 10)); [by rewrite append_nil_r | lia | done |].
    change (2 ^ 51) with 2251799813685248. lia.
  - destruct (round_ratio_tenth n) as (p & e & Hround & _).
    { change (2 ^ 48) with 281474976710656. lia. }
    rewrite Hround, signed_finite. cbn [Num.toString].
    rewrite (toString_pos_tenth n p e); [done | | done | done].
    change (2 ^ 47) with 140737488355328. lia.
Qed.

Lemma parseFloat_minus (s : string) :
  Num.parseFloat (String "-" s) = Num.parse_unsigned true s.
Proof. reflexivity. Qed.

(** When [x] is at most [2^47] in magnitude,
    [parseFloat(x.toFixed(1)).toString()] is the number of tenths nearest
    to [x], printed with one decimal, or with none when the decimal is
    zero. *)
Lemma toString_parseFloat_toFixed (x : Num.number) (t : Z) :
  nearest_tenths x = Some t -> Z.abs t <= 10 * 2 ^ 47 ->
  Num.toString (Num.parseFloat (Num.toFixed x 1)) = render_tenths t.
Proof.
  destruct x as [s|s| |s m e]; try done.
  - intros [= <-] _. reflexivity.
  - intros [= <-] Ht.
    pose proof (fixed_digits_nearest m e) as Hnear.
    pose proof (fraction_pos m e) as [HP HQ].
    set (n := Num.fixed_digits m e 1) in *.
    assert (Num.at_least_1e21 m e = false) as Hsmall.
    { unfold Num.at_least_1e21. destruct (Num.fraction m e) as [P Q].
      cbn [fst snd] in *. destruct Hnear as [Hn0 Hnear].
      apply Z.leb_gt. change (2 ^ 47) with 140737488355328 in Ht.
      change (10 ^ 21) with 1000000000000000000000. destruct s; nia. }
    destruct (Num.fraction m e) as [P Q]. destruct Hnear as [Hn0 _].
    assert (Z.abs ((if s then -1 else 1) * n) = n) as Habs by (destruct s; lia).
    rewrite Habs in Ht.
    cbn [Num.toFixed]. fold n. rewrite Hsmall, fixed_string_1 by done.
    pose proof (Z.div_mod n 10 ltac:(lia)) as Hdiv.
    pose proof (Z.mod_pos_bound n 10 ltac:(lia)) as Hb.
    assert (0 <= n / 10) as Ha by (apply Z.div_pos; lia).
    assert (Num.parseFloat
              ((if s then "-" else "") +:+ Num.digits_of (n / 10) +:+ "."
               +:+ String (Num.digit_char (n mod 10)) "")
            = Num.parse_unsigned s
                (Num.digits_of (n / 10) +:+ "."
                 +:+ String (Num.digit_char (n mod 10)) "")) as ->.
    { destruct s.
      - by rewrite append_cons, append_nil_l, parseFloat_minus.
      - rewrite append_nil_l.
        destruct (digits_of_nonempty (n / 10) Ha) as (c & rest & -> & Hc).
        rewrite append_cons. by apply parseFloat_digit. }
    rewrite parse_unsigned_fixed by (done || lia).
    replace (10 * (n / 10) + n mod 10) with n by lia.
    unfold render_tenths. rewrite Habs.
    destruct (Z.eqb_spec n 0) as [->|Hnz].
    + by destruct s.
    + rewrite of_decimal_tenth by lia.
      rewrite toString_round_tenth by lia.
      by destruct s; [rewrite (proj2 (Z.ltb_lt _ 0)) by lia
                     |rewrite (proj2 (Z.ltb_ge _ 0)) by lia].
Qed.

#[local] Close Scope Z_scope.

(** * The formatting of the totals *)

(** C3, as stated, fails: the dissimilarity is printed with at most one
    decimal, so it is never ["0.35"].  The sum of 0.1 and 0.25 is the
    binary64 value just below 0.35, which [toFixed(1)] prints as ["0.3"]. *)
Lemma formatting_counterexample :
  summarize [] claude_entry ∈ modelsMetrics sample_models [] /\
  coherence_score <$> included [] claude_entry.2
    = [Num.literal false 32 (-1); Num.literal false 48 (-1)] /\
  embedding_dissimilarity_score <$> included [] claude_entry.2
    = [Num.literal false 1 (-1); Num.literal false 25 (-2)] /\
  ~ (totalCoherence (summarize [] claude_entry) = "8"%string /\
     totalDissimilarity (summarize [] claude_entry) = "0.35"%string).
Proof.
  split.
  { apply modelsMetrics_elem_of. exists claude_entry.1, claude_entry.2.
    split; [|done]. apply list_elem_of_further, list_elem_of_here. }
  split; [done|]. split; [done|].
  intros [_ Hdissimilarity]. vm_compute in Hdissimilarity. discriminate.
Qed.

(** C3 (amended). For a model whose included responses have the coherence
    scores 3.2 and 4.8 and the dissimilarity scores 0.1 and 0.25,
    [totalCoherence] is ["8"] and [totalDissimilarity] is ["0.3"]. *)
Theorem formatting_exactness (models : Models) (selectedQuestions : list string)
    (name : string) (params : Params) (s : ModelSummary) :
  distinct_keys models ->
  (name, params) ∈ models ->
  coherence_score <$> included selectedQuestions params
    = [Num.literal false 32 (-1); Num.literal false 48 (-1)] ->
  embedding_dissimilarity_score <$> included selectedQuestions params
    = [Num.literal false 1 (-1); Num.literal false 25 (-2)] ->
  s ∈ modelsMetrics models selectedQuestions ->
  modelName s = name ->
  totalCoherence s = "8"%string /\ totalDissimilarity s = "0.3"%string.
Proof.
  intros Hdistinct Hin Hcoherence Hdissimilarity Hs <-.
  rewrite (modelsMetrics_named models selectedQuestions s params) by done.
  destruct (summarize_fields selectedQuestions (modelName s) params)
    as (_ & _ & -> & ->).
  assert (length (included selectedQuestions params) = 2) as ->.
  { by rewrite <- (length_fmap coherence_score), Hcoherence. }
  unfold sum_scores. rewrite Hcoherence, Hdissimilarity.
  split; vm_compute; reflexivity.
Qed.

Lemma formatting_exactness_witness :
  totalCoherence (summarize [] claude_entry) = "8"%string /\
  totalDissimilarity (summarize [] claude_entry) = "0.3"%string.
Proof.
  apply (formatting_exactness sample_models [] claude_entry.1 claude_entry.2).
  - apply (proj1 sample_models_wf).
  - apply list_elem_of_further, list_elem_of_here.
  - reflexivity.
  - reflexivity.
  - apply modelsMetrics_elem_of. exists claude_entry.1, claude_entry.2.
    split; [|done]. apply list_elem_of_further, list_elem_of_here.
  - reflexivity.
Defined.




(** * The rest of the component *)

(** ** The question index *)

Lemma uniqueQuestions_keys (models : Models) :
  uniqueQuestions models = foldl Set_add [] (question_keys models).
Proof.
  unfold uniqueQuestions, question_keys. generalize (@nil string) as acc.
  induction models as [|[name params] models IH]; intros acc; [done|].
  rewrite fmap_cons, bind_cons, foldl_app. cbn [foldl snd].
  rewrite IH. f_equal. clear IH. revert acc.
  induction params as [|[paramKey questions] params IH]; intros acc; [done|].
  rewrite fmap_cons, bind_cons, foldl_app. cbn [foldl snd]. by rewrite IH.
Qed.

Lemma elem_of_first_seen (l : list string) (q : string) :
  q ∈ first_seen l <-> q ∈ l.
Proof.
  induction l as [|x l IH]; [done|]. cbn [first_seen].
  rewrite !elem_of_cons, list_elem_of_filter, IH.
  destruct (decide (q = x)); tauto.
Qed.

Lemma NoDup_first_seen (l : list string) : NoDup (first_seen l).
Proof.
  induction l as [|x l IH]; [constructor|]. cbn [first_seen].
  apply NoDup_cons. split.
  - rewrite list_elem_of_filter. tauto.
  - by apply NoDup_filter.
Qed.

Lemma foldl_Set_add (l acc : list string) :
  foldl Set_add acc l = acc ++ filter (fun q => q ∉ acc) (first_seen l).
Proof.
  revert acc. induction l as [|x l IH]; intros acc.
  - by rewrite app_nil_r.
  - cbn [foldl first_seen]. rewrite IH. unfold Set_add.
    rewrite filter_cons, list_filter_filter. case_bool_decide as Hx.
    + rewrite decide_False by tauto. f_equal.
      apply list_filter_iff. intros q. split; [|tauto].
      intros Hq. split; [done|]. by intros ->.
    + rewrite decide_True by done. rewrite <- app_assoc. cbn [app]. do 2 f_equal.
      apply list_filter_iff. intros q. rewrite elem_of_app, list_elem_of_singleton.
      tauto.
Qed.

Lemma uniqueQuestions_first_seen (models : Models) :
  uniqueQuestions models = first_seen (question_keys models).
Proof.
  rewrite uniqueQuestions_keys, foldl_Set_add. cbn [app].
  induction (first_seen (question_keys models)) as [|x l IH]; [done|].
  rewrite filter_cons, decide_True by apply not_elem_of_nil. by rewrite IH.
Qed.

Lemma elem_of_question_keys (models : Models) (question : string) :
  question ∈ question_keys models <->
  exists name params paramKey questions responses,
    (name, params) ∈ models /\ (paramKey, questions) ∈ params /\
    (question, responses) ∈ questions.
Proof.
  unfold question_keys. rewrite list_elem_of_bind. split.
  - intros ([name params] & Hq & Hin). cbn [snd] in Hq.
    apply list_elem_of_bind in Hq as ([paramKey questions] & Hq & Hp).
    cbn [snd] in Hq. apply list_elem_of_fmap in Hq as ([q responses] & -> & Hq).
    by exists name, params, paramKey, questions, responses.
  - intros (name & params & paramKey & questions & responses & Hin & Hp & Hq).
    exists (name, params). split; [|done]. cbn [snd].
    apply list_elem_of_bind. exists (paramKey, questions). split; [|done].
    cbn [snd]. apply list_elem_of_fmap. by exists (question, responses).
Qed.

Lemma elem_of_uniqueQuestions (models : Models) (question : string) :
  question ∈ uniqueQuestions models <->
  exists name params paramKey questions responses,
    (name, params) ∈ models /\ (paramKey, questions) ∈ params /\
    (question, responses) ∈ questions.
Proof.
  by rewrite uniqueQuestions_first_seen, elem_of_first_seen,
    elem_of_question_keys.
Qed.

(** ** The filter as a set of questions *)

Lemma visit_questions_ext (F1 F2 : list string) (paramKey : string)
    (questions : Questions) (st : LoopState) :
  (forall question responses,
     (question, responses) ∈ questions ->
     matches F1 question = matches F2 question) ->
  foldl (visit_question F1 paramKey) st questions
  = foldl (visit_question F2 paramKey) st questions.
Proof.
  revert st. induction questions as [|[question responses] questions IH];
    intros st Hsame; [done|].
  cbn [foldl]. rewrite IH.
  - f_equal. unfold visit_question.
    by rewrite (Hsame question responses) by apply list_elem_of_here.
  - intros q rs Hq. apply (Hsame q rs). by apply list_elem_of_further.
Qed.

Lemma visit_params_ext (F1 F2 : list string) (params : Params) (st : LoopState) :
  (forall paramKey questions question responses,
     (paramKey, questions) ∈ params -> (question, responses) ∈ questions ->
     matches F1 question = matches F2 question) ->
  foldl (visit_param F1) st params = foldl (visit_param F2) st params.
Proof.
  revert st. induction params as [|[paramKey questions] params IH];
    intros st Hsame; [done|].
  cbn [foldl]. rewrite IH.
  - f_equal. cbn [visit_param]. apply visit_questions_ext.
    intros q rs Hq. apply (Hsame paramKey questions q rs); [|done].
    apply list_elem_of_here.
  - intros k qs q rs Hk Hq. apply (Hsame k qs q rs); [|done].
    by apply list_elem_of_further.
Qed.

Lemma summarize_ext (F1 F2 : list string) (name : string) (params : Params) :
  (forall paramKey questions question responses,
     (paramKey, questions) ∈ params -> (question, responses) ∈ questions ->
     matches F1 question = matches F2 question) ->
  summarize F1 (name, params) = summarize F2 (name, params).
Proof.
  intros Hsame. unfold summarize. by rewrite (visit_params_ext F1 F2).
Qed.

Lemma modelsMetrics_ext (models : Models) (F1 F2 : list string) :
  (forall question,
     question ∈ uniqueQuestions models ->
     matches F1 question = matches F2 question) ->
  modelsMetrics models F1 = modelsMetrics models F2.
Proof.
  intros Hsame. unfold modelsMetrics. rewrite !metrics_map. f_equal.
  apply Forall_fmap_ext, Forall_forall. intros [name params] Hin.
  apply summarize_ext. intros paramKey questions question responses Hp Hq.
  apply Hsame, elem_of_uniqueQuestions.
  by exists name, params, paramKey, questions, responses.
Qed.

Lemma matches_uniqueQuestions (models : Models) (question : string) :
  question ∈ uniqueQuestions models ->
  matches (uniqueQuestions models) question = true.
Proof.
  intros Hq. unfold matches. rewrite bool_decide_eq_true_2 by done.
  apply orb_true_r.
Qed.

Lemma indexOf_from_spec (l : list string) (x : string) (i : Z) :
  (0 <= i)%Z ->
  (x ∈ l -> (i <= indexOf_from i l x)%Z) /\
  (x ∉ l -> indexOf_from i l x = (-1)%Z).
Proof.
  revert i. induction l as [|y l IH]; intros i Hi.
  - split; [|done]. intros Hx. by apply elem_of_nil in Hx.
  - cbn [indexOf_from]. case_bool_decide as Hy.
    + subst y. split; [lia|]. intros Hx. exfalso. apply Hx, list_elem_of_here.
    + destruct (IH (i + 1)%Z ltac:(lia)) as [Hin Hout]. split.
      * intros Hx. apply elem_of_cons in Hx as [->|Hx]; [done|].
        specialize (Hin Hx). lia.
      * intros Hx. apply Hout. intros Hx'. apply Hx. by apply list_elem_of_further.
Qed.

Lemma checked_elem_of (selectedQuestions : list string) (question : string) :
  checked selectedQuestions question = true <-> question ∈ selectedQuestions.
Proof.
  unfold checked, indexOf.
  destruct (indexOf_from_spec selectedQuestions question 0%Z ltac:(lia))
    as [Hin Hout].
  rewrite Z.ltb_lt. destruct (decide (question ∈ selectedQuestions)) as [Hq|Hq].
  - specialize (Hin Hq). split; [done|lia].
  - rewrite (Hout Hq). split; [lia|done].
Qed.

(** X1. The question index lists every question of the dataset, under any
    model and configuration, exactly once, and nothing else. *)
Theorem question_index_complete (models : Models) :
  NoDup (uniqueQuestions models) /\
  forall question : string,
    question ∈ uniqueQuestions models <->
    exists name params paramKey questions responses,
      (name, params) ∈ models /\ (paramKey, questions) ∈ params /\
      (question, responses) ∈ questions.
Proof.
  split.
  - rewrite uniqueQuestions_first_seen. apply NoDup_first_seen.
  - apply elem_of_uniqueQuestions.
Qed.

(** X2. The question index is in the order in which the questions are
    first met: the question keys of the dataset in enumeration order, each
    one without its later copies. *)
Theorem question_index_order (models : Models) :
  uniqueQuestions models = first_seen (question_keys models) /\
  forall (seen : list string) (question : string) (later : list string),
    question_keys models = seen ++ question :: later ->
    question ∉ seen ->
    exists rest,
      uniqueQuestions models = first_seen seen ++ question :: rest.
Proof.
  split; [apply uniqueQuestions_first_seen|].
  intros seen question later Hkeys Hnew.
  rewrite uniqueQuestions_keys, Hkeys, foldl_app. cbn [foldl].
  rewrite (foldl_Set_add seen []). cbn [app].
  assert (filter (fun q => q ∉ []) (first_seen seen) = first_seen seen) as ->.
  { induction (first_seen seen) as [|x l IH]; [done|].
    rewrite filter_cons, decide_True by apply not_elem_of_nil. by rewrite IH. }
  unfold Set_add at 2. rewrite bool_decide_eq_false_2
    by (by rewrite elem_of_first_seen).
  rewrite foldl_Set_add, <- app_assoc. cbn [app]. eauto.
Qed.

(** X3. The button that selects every question and the button that
    deselects every question give the same table: with every question of
    the index selected, no question of the dataset is filtered out. *)
Theorem select_all_same_table (models : Models) (st : AppState) :
  state_selectedQuestions (handleSelectAll models st) = uniqueQuestions models /\
  state_selectedQuestions (handleDeselectAll st) = [] /\
  currentTable models (handleSelectAll models st)
  = currentTable models (handleDeselectAll st).
Proof.
  split; [done|]. split; [done|].
  unfold currentTable. cbn [handleSelectAll handleDeselectAll state_selectedQuestions].
  apply modelsMetrics_ext. intros question Hq.
  by rewrite matches_uniqueQuestions, matches_empty.
Qed.

(** X4. The check box of a question is ticked exactly when the question is
    among the selected ones: every box after the selection of all
    questions, none after the deselection.  With a selection that is not
    empty the engine keeps exactly the questions whose box is ticked; with
    the empty selection it keeps every question although no box is
    ticked. *)
Theorem checkbox_ticked (models : Models) (st : AppState)
    (selectedQuestions : list string) (question : string) :
  (checked selectedQuestions question = true <-> question ∈ selectedQuestions) /\
  (selectedQuestions ≠ [] ->
   matches selectedQuestions question = checked selectedQuestions question) /\
  checked [] question = false /\ matches [] question = true /\
  (question ∈ uniqueQuestions models ->
   checked (state_selectedQuestions (handleSelectAll models st)) question = true) /\
  checked (state_selectedQuestions (handleDeselectAll st)) question = false.
Proof.
  split; [apply checked_elem_of|]. split; [|split; [done|split; [done|split]]].
  - intros Hne. apply eq_true_iff_eq.
    by rewrite checked_elem_of, matches_nonempty.
  - intros Hq. by apply checked_elem_of.
  - done.
Qed.

(** X5. The table depends on the selection as on a set of questions, and
    only on its part within the question index: two selections that are
    both empty or both not, and that hold the same questions of the index,
    give the same table. *)
Theorem selection_as_set (models : Models) (F1 F2 : list string) :
  (F1 = [] <-> F2 = []) ->
  (forall question,
     question ∈ uniqueQuestions models -> question ∈ F1 <-> question ∈ F2) ->
  modelsMetrics models F1 = modelsMetrics models F2.
Proof.
  intros Hempty Hsame. apply modelsMetrics_ext. intros question Hq.
  destruct (decide (F1 = [])) as [->|Hne1].
  - by rewrite (proj1 Hempty eq_refl).
  - assert (F2 ≠ []) as Hne2 by tauto.
    apply eq_true_iff_eq. rewrite !matches_nonempty by done. by apply Hsame.
Qed.

Lemma selection_as_set_witness :
  modelsMetrics sample_models ["Q2"; "Q1"; "Q2"]%string
  = modelsMetrics sample_models ["Q1"; "Q2"; "Q3"]%string.
Proof.
  apply (selection_as_set sample_models).
  - split; discriminate.
  - intros question Hq. rewrite !elem_of_cons, !elem_of_nil.
    assert (question = "Q1"%string \/ question = "Q2"%string) as Hcase.
    { revert Hq. vm_compute uniqueQuestions.
      rewrite !elem_of_cons, elem_of_nil. tauto. }
    destruct Hcase as [->| ->]; split; intros _; auto.
Defined.

(** ** The drill-down of a model of the dataset *)

Lemma find_elem_of {A : Type} (f : A -> bool) (l : list A) (x : A) :
  find f l = Some x -> x ∈ l /\ f x = true.
Proof.
  induction l as [|y l IH]; [done|]. cbn [find].
  destruct (f y) eqn:Hy.
  - intros [= ->]. split; [apply list_elem_of_here|done].
  - intros Hx. destruct (IH Hx) as [Hin Hfx].
    split; [by apply list_elem_of_further|done].
Qed.

Lemma selectedModelDetail_found (models : Models) (selectedQuestions : list string)
    (name : string) (params : Params) :
  distinct_keys models -> (name, params) ∈ models -> name ≠ ""%string ->
  selectedModelDetail (Some name) (modelsMetrics models selectedQuestions)
  = Some (filteredData (summarize selectedQuestions (name, params))).
Proof.
  intros Hdistinct Hin Hname. unfold selectedModelDetail, falsy_name.
  rewrite bool_decide_eq_false_2 by done.
  destruct (find _ _) as [s|] eqn:Hfind.
  - apply find_elem_of in Hfind as [Hs Heq].
    apply bool_decide_eq_true in Heq. injection Heq as Heq.
    rewrite <- Heq in Hin.
    by rewrite (modelsMetrics_named models selectedQuestions s params), Heq.
  - exfalso. rewrite find_none_iff in Hfind.
    specialize (Hfind (summarize selectedQuestions (name, params))).
    rewrite bool_decide_eq_false, summarize_name in Hfind. apply Hfind; [|done].
    apply modelsMetrics_elem_of. by exists name, params.
Qed.

Lemma selectedModelDetail_is_Some (models : Models)
    (selectedQuestions : list string) (name : string) :
  name ∈ models.*1 -> name ≠ ""%string ->
  is_Some (selectedModelDetail (Some name) (modelsMetrics models selectedQuestions)).
Proof.
  intros Hin Hname. unfold selectedModelDetail, falsy_name.
  rewrite bool_decide_eq_false_2 by done.
  destruct (find _ _) as [s|] eqn:Hfind; [by eexists|].
  exfalso. rewrite find_none_iff in Hfind.
  apply list_elem_of_fmap in Hin as ([name' params] & -> & Hin).
  specialize (Hfind (summarize selectedQuestions (name', params))).
  rewrite bool_decide_eq_false, summarize_name in Hfind. apply Hfind; [|done].
  apply modelsMetrics_elem_of. by exists name', params.
Qed.



(** X7. A model of the dataset whose questions are all filtered out still
    has a drill-down object, an empty one: the modal then shows no section
    at all, and not the message that no data is available.  A model whose
    key is the empty text has no drill-down, whatever its data. *)
Theorem drilldown_of_excluded_model (models : Models)
    (selectedQuestions : list string) (name : string) (params : Params) :
  distinct_keys models -> (name, params) ∈ models ->
  (name ≠ ""%string ->
   (forall paramKey questions question responses,
      (paramKey, questions) ∈ params -> (question, responses) ∈ questions ->
      matches selectedQuestions question = false) ->
   detailView (selectedModelDetail (Some name)
                 (modelsMetrics models selectedQuestions))
   = ParameterSections ∅) /\
  (name = ""%string ->
   detailView (selectedModelDetail (Some name)
                 (modelsMetrics models selectedQuestions))
   = NoDataAvailable).
Proof.
  intros Hdistinct Hin. split.
  - intros Hname Hnone.
    rewrite (selectedModelDetail_found models selectedQuestions name params)
      by done.
    cbn [detailView]. f_equal. unfold summarize. cbn [filteredData].
    by rewrite visit_params_no_match.
  - by intros ->.
Qed.

Lemma drilldown_of_excluded_model_witness :
  detailView (selectedModelDetail (Some "openai/gpt-4"%string)
                (modelsMetrics sample_models ["Q2"%string]))
  = ParameterSections ∅.
Proof.
  refine (proj1 (drilldown_of_excluded_model sample_models ["Q2"%string]
                   "openai/gpt-4"%string gpt4_entry.2
                   (proj1 sample_models_wf) _) _ _).
  - apply list_elem_of_here.
  - discriminate.
  - intros paramKey questions question responses Hp Hq.
    apply list_elem_of_singleton in Hp. injection Hp as -> ->.
    apply list_elem_of_singleton in Hq. by injection Hq as -> ->.
Defined.

(** ** The states that the handlers reach *)

Lemma dispatch_selected (models : Models) (st : AppState) (ev : Event) :
  (state_modalOpen st = true <-> is_Some (state_selectedModelName st)) ->
  (forall name, state_selectedModelName st = Some name -> name ∈ models.*1) ->
  let st' := dispatch models st ev in
  (state_modalOpen st' = true <-> is_Some (state_selectedModelName st')) /\
  (forall name, state_selectedModelName st' = Some name -> name ∈ models.*1).
Proof.
  intros Hopen Hkey. destruct ev as [value| | |row|]; cbn zeta; try done.
  - cbn [dispatch]. destruct (currentTable models st !! row) as [model|] eqn:Hrow;
      [|done].
    cbn [handleModelClick state_modalOpen state_selectedModelName]. split.
    + split; [by eexists|done].
    + intros name [= <-]. apply list_elem_of_lookup_2 in Hrow.
      apply modelsMetrics_elem_of in Hrow as (name & params & Hin & ->).
      rewrite summarize_name. apply list_elem_of_fmap. by exists (name, params).
  - cbn [dispatch handleClose state_modalOpen state_selectedModelName]. split.
    + split; [done|]. by intros [? ?].
    + done.
Qed.

Lemma run_selected (models : Models) (events : list Event) :
  let st := run models events in
  (state_modalOpen st = true <-> is_Some (state_selectedModelName st)) /\
  (forall name, state_selectedModelName st = Some name -> name ∈ models.*1).
Proof.
  cbn zeta. unfold run. induction events as [|ev events IH] using rev_ind.
  - cbn [foldl initialState state_modalOpen state_selectedModelName].
    split; [|done]. split; [done|]. by intros [? ?].
  - rewrite foldl_app. cbn [foldl]. destruct IH as [Hopen Hkey].
    by apply dispatch_selected.
Qed.

(** X8. In every state that the handlers reach from the initial one, the
    modal is open exactly when a model is selected, and the selected name
    is the key of a model of the dataset.  When no model has the empty
    text as its key, an open modal therefore shows the sections of a
    drill-down object, never the message that no data is available, and a
    closed one has no drill-down object. *)
Theorem open_modal_shows_sections (models : Models) (events : list Event) :
  let st := run models events in
  (state_modalOpen st = true <-> is_Some (state_selectedModelName st)) /\
  (forall name, state_selectedModelName st = Some name -> name ∈ models.*1) /\
  (state_modalOpen st = false -> currentDetail models st = None) /\
  (""%string ∉ models.*1 ->
   state_modalOpen st = true ->
   exists sections,
     currentDetail models st = Some sections /\
     detailView (currentDetail models st) = ParameterSections sections).
Proof.
  cbn zeta. destruct (run_selected models events) as [Hopen Hkey].
  split; [done|]. split; [done|]. split.
  - intros Hclosed. unfold currentDetail.
    destruct (state_selectedModelName (run models events)) as [name|] eqn:Hsel;
      [|done].
    rewrite (proj2 Hopen) in Hclosed by by eexists. done.
  - intros Hnames Hmodal. apply Hopen in Hmodal as [name Hsel].
    unfold currentDetail, currentTable. rewrite Hsel.
    destruct (selectedModelDetail_is_Some models
                (state_selectedQuestions (run models events)) name)
      as [sections Hsections].
    + by apply Hkey.
    + intros ->. apply Hnames. by apply Hkey.
    + exists sections. by rewrite Hsections.
Qed.

(** ** The bar of a row *)

Lemma div_eucl_multiple (p : positive) (k : Z) :
  Z.div_eucl (Zpos p * k) (Zpos p) = (k, 0%Z).
Proof.
  pose proof (Z.div_mul k (Zpos p) ltac:(lia)) as Hq.
  pose proof (Z.mod_mul k (Zpos p) ltac:(lia)) as Hr.
  rewrite (Z.mul_comm k) in Hq, Hr. unfold Z.div, Z.modulo in Hq, Hr.
  destruct (Z.div_eucl (Zpos p * k) (Zpos p)) as [q r].
  cbn [fst snd] in Hq, Hr. by subst.
Qed.

(** The quotient of a finite number by itself is one. *)
Lemma div_self (s : bool) (p : positive) (e : Z) :
  Num.div (S754_finite s p e) (S754_finite s p e)
  = S754_finite false (2 ^ 52)%positive (-52)%Z.
Proof.
  unfold Num.div, SFdiv, SFdiv_core_binary.
  rewrite Z.sub_diag, Z.sub_diag.
  change (Z.min (fexp Num.prec Num.emax 0) 0) with (-53)%Z.
  change (0 - -53)%Z with 53%Z. cbv beta iota zeta.
  rewrite Z.shiftl_mul_pow2 by lia. rewrite div_eucl_multiple.
  replace (xorb s s) with false by (by destruct s).
  assert (new_location (Zpos p) 0 = loc_Exact) as ->.
  { unfold new_location. by destruct (Z.even (Zpos p)). }
  by vm_compute.
Qed.

Lemma ratio_of_best (best : nat) (model : ModelSummary) :
  0 < best -> (Z.of_nat best < 2 ^ 52)%Z -> totalResponses model = best ->
  ratio best model = Some (Num.of_nat 100).
Proof.
  intros Hpos Hbound Htotal. unfold ratio, checked_div. rewrite Htotal.
  destruct (Nat.eqb_spec best 0) as [->|_]; [lia|]. cbn [negb mbind option_bind].
  destruct (of_Z_exact (Z.of_nat best) ltac:(lia)) as (p & e & Hbest & _).
  unfold Num.of_nat at 1 2. rewrite Hbest, div_self. by vm_compute.
Qed.

Lemma ratio_of_zero (best : nat) (model : ModelSummary) :
  (Z.of_nat best < 2 ^ 52)%Z -> totalResponses model = 0 ->
  ratio best model = Some Num.zero.
Proof.
  intros Hbound Hzero. unfold ratio, checked_div. rewrite Hzero.
  destruct (Nat.eqb_spec best 0) as [->|Hpos]; [done|].
  cbn [negb mbind option_bind].
  destruct (of_Z_exact (Z.of_nat best) ltac:(lia)) as (p & e & Hbest & _).
  unfold Num.of_nat at 2. by rewrite Hbest.
Qed.

(** X9. In a table whose best total is below 2^52, the bar of a row with
    the best total covers the whole row, and the bar of a row without
    responses covers nothing: the ratios are exactly 100 and 0, and the
    gradient stops of the two rows read [100%] and [0%]. *)
Theorem bar_endpoints (ranked : list ModelSummary) (model : ModelSummary)
    (text : string) :
  (Z.of_nat (bestTotal ranked) < 2 ^ 52)%Z ->
  (0 < bestTotal ranked -> totalResponses model = bestTotal ranked ->
   exists r,
     ratio (bestTotal ranked) model = Some r /\ r = Num.of_nat 100 /\
     gradient text r
     = ("linear-gradient(to right, " +:+ text +:+ " 100%, white 100%)")%string) /\
  (totalResponses model = 0 ->
   exists r,
     ratio (bestTotal ranked) model = Some r /\ r = Num.zero /\
     gradient text r
     = ("linear-gradient(to right, " +:+ text +:+ " 0%, white 0%)")%string).
Proof.
  intros Hbound. split.
  - intros Hpos Hbest. exists (Num.of_nat 100).
    split; [by apply ratio_of_best|]. split; [done|].
    unfold gradient. by replace (Num.toString (Num.of_nat 100)) with "100"%string
      by (by vm_compute).
  - intros Hzero. exists Num.zero.
    split; [by apply ratio_of_zero|]. done.
Qed.

Lemma bar_endpoints_witness :
  (exists r,
     ratio (bestTotal (modelsMetrics sample_models []))
           (summarize [] claude_entry) = Some r /\ r = Num.of_nat 100 /\
     gradient "#D4C5B9" r
     = "linear-gradient(to right, #D4C5B9 100%, white 100%)"%string) /\
  (exists r,
     ratio (bestTotal (modelsMetrics sample_models []))
           (summarize ["Q2"%string] gpt4_entry) = Some r /\ r = Num.zero /\
     gradient "#74AA9C" r
     = "linear-gradient(to right, #74AA9C 0%, white 0%)"%string).
Proof.
  split.
  - apply (bar_endpoints (modelsMetrics sample_models [])
             (summarize [] claude_entry) "#D4C5B9");
      vm_compute; first [reflexivity | lia].
  - apply (bar_endpoints (modelsMetrics sample_models [])
             (summarize ["Q2"%string] gpt4_entry) "#74AA9C");
      vm_compute; reflexivity.
Defined.

(** ** The colour of a row *)

Lemma lower_idempotent (c : ascii) : lower (lower c) = lower c.
Proof. by destruct c as [[] [] [] [] [] [] [] []]. Qed.

Lemma toLowerCase_idempotent (s : string) :
  toLowerCase (toLowerCase s) = toLowerCase s.
Proof.
  induction s as [|c s IH]; [done|]. cbn [toLowerCase].
  by rewrite lower_idempotent, IH.
Qed.

Lemma before_slash_append (prefix rest : string) :
  before_slash prefix = prefix ->
  before_slash (prefix +:+ String "/" rest) = prefix.
Proof.
  induction prefix as [|c prefix IH]; [done|].
  change (String c prefix +:+ String "/" rest)
    with (String c (prefix +:+ String "/" rest)).
  cbn [before_slash]. destruct (Ascii.eqb c "/"); [done|].
  intros [= Hprefix]. by rewrite IH.
Qed.

(** X10. The colour of a row is the colour that [COMPANY_COLORS] gives to
    the text before the first slash of the model's name, whatever the case
    of its letters, and grey when it gives none: one of seven colour
    texts.  The two names [constructor] and [__proto__] are the exception:
    for them the lookup finds a member of [Object.prototype], which is not
    a colour text. *)
Theorem row_colour_palette (name : string) :
  ((exists text,
      rowColor name = Colour text /\
      text ∈ [ "#74AA9C"; "#044EAB"; "#D4C5B9"; "#669DF7"; "#000000";
               "#F54E42"; "#cccccc" ]%string) \/
   (rowColor name = Inherited (company name) /\
    company name ∈ [ "constructor"; "__proto__" ]%string)) /\
  (forall prefix rest text,
     before_slash prefix = prefix ->
     COMPANY_COLORS !! toLowerCase prefix = Some text ->
     rowColor (prefix +:+ String "/" rest) = Colour text /\
     rowColor prefix = Colour text) /\
  (COMPANY_COLORS !! company name = None ->
   company name ∉ [ "constructor"; "__proto__" ]%string ->
   rowColor name = Colour "#cccccc").
Proof.
  assert (forall key text,
            COMPANY_COLORS !! key = Some text ->
            text ≠ ""%string /\
            text ∈ [ "#74AA9C"; "#044EAB"; "#D4C5B9"; "#669DF7"; "#000000";
                     "#F54E42"; "#cccccc" ]%string) as Hcolours.
  { intros key text Hkey. apply elem_of_list_to_map_2 in Hkey.
    rewrite !elem_of_cons, elem_of_nil in Hkey.
    destruct Hkey as [Hk|[Hk|[Hk|[Hk|[Hk|[Hk|[]]]]]]];
      injection Hk as -> ->; (split; [done|]);
      rewrite !elem_of_cons; tauto. }
  assert (company name ∈ Object_prototype ->
          company name ∈ [ "constructor"; "__proto__" ]%string) as Hmembers.
  { intros Hmember. pose proof (toLowerCase_idempotent (before_slash name)) as Hlow.
    fold (company name) in Hlow. revert Hmember Hlow.
    generalize (company name) as key. intros key.
    unfold Object_prototype. rewrite !elem_of_cons, !elem_of_nil.
    intros [->|[->|[->|[->|[->|[->|[->|[->|[->|[->|[->|[->|[]]]]]]]]]]]]];
      first [ discriminate | tauto ]. }
  split; [|split].
  - unfold rowColor. destruct (COMPANY_COLORS !! company name) as [text|] eqn:Hkey.
    + destruct (Hcolours _ _ Hkey) as [Hne Hin]. left. exists text.
      by rewrite bool_decide_eq_false_2.
    + case_bool_decide as Hmember.
      * right. split; [done|]. by apply Hmembers.
      * left. exists "#cccccc"%string. split; [done|].
        rewrite !elem_of_cons. tauto.
  - intros prefix rest text Hprefix Hkey.
    destruct (Hcolours _ _ Hkey) as [Hne _]. unfold rowColor, company.
    rewrite before_slash_append, Hprefix, Hkey by done.
    by rewrite bool_decide_eq_false_2.
  - intros Hkey Hnot. unfold rowColor. rewrite Hkey.
    rewrite bool_decide_eq_false_2; [done|]. intros Hmember. by apply Hnot, Hmembers.
Qed.

Lemma row_colour_palette_witness :
  rowColor "OpenAI/gpt-4" = Colour "#74AA9C" /\
  rowColor "OpenAI" = Colour "#74AA9C".
Proof.
  apply (proj1 (proj2 (row_colour_palette "")) "OpenAI" "gpt-4" "#74AA9C")%string.
  - reflexivity.
  - by vm_compute.
Defined.

(** ** The chart and the rows of the drill-down view *)

Lemma toString_of_Z_label (n : Z) :
  (Z.abs n < 2 ^ 51)%Z -> Num.toString (Num.of_Z n) = render_integer n.
Proof.
  intros Hn. rewrite <- (toString_of_Z n Hn).
  by destruct (Z.eqb_spec n 0) as [->|_].
Qed.

(** X11. The chart of a question has one label, one coherence value and one
    dissimilarity value for each response, in the order of the responses.
    The label is the answer number in decimal digits after a hash sign;
    the coherence value is the score itself; the dissimilarity value is the
    score times 100 rounded to one decimal, and it prints, as in the row of
    the response, with one decimal or with none when that decimal is
    zero. *)
Theorem chart_series (responses : list Response) :
  length (chart_labels (chartData responses)) = length responses /\
  length (chart_coherence (chartData responses)) = length responses /\
  length (chart_dissimilarity (chartData responses)) = length responses /\
  forall (i : nat) (r : Response),
    responses !! i = Some r ->
    chart_coherence (chartData responses) !! i = Some (coherence_score r) /\
    ((Z.abs (answer_num r) < 2 ^ 51)%Z ->
     chart_labels (chartData responses) !! i
     = Some ("#" +:+ render_integer (answer_num r))%string) /\
    chart_dissimilarity (chartData responses) !! i
    = Some (dissimilarityPercent (embedding_dissimilarity_score r)) /\
    forall t : Z,
      nearest_tenths (Num.mul (embedding_dissimilarity_score r) (Num.of_nat 100))
      = Some t ->
      (Z.abs t <= 10 * 2 ^ 47)%Z ->
      Num.toString (dissimilarityPercent (embedding_dissimilarity_score r))
      = render_tenths t.
Proof.
  unfold chartData. cbn [chart_labels chart_coherence chart_dissimilarity].
  rewrite !length_fmap. split; [done|]. split; [done|]. split; [done|].
  intros i r Hr. rewrite !list_lookup_fmap, Hr. cbn [fmap option_fmap option_map].
  split; [done|]. split.
  - intros Hn. by rewrite toString_of_Z_label.
  - split; [done|]. intros t Ht Hbound. by apply toString_parseFloat_toFixed.
Qed.

Lemma chart_series_witness :
  Num.toString (dissimilarityPercent (Num.literal false 25 (-2))) = "25"%string /\
  Num.toString (dissimilarityPercent (Num.literal false 5 (-1))) = "50"%string.
Proof.
  split.
  - apply (proj2 (proj2 (proj2
             (proj2 (proj2 (proj2 (chart_series two_answers))) 1%nat _ eq_refl)))
             250%Z); by vm_compute.
  - apply (proj2 (proj2 (proj2
             (proj2 (proj2 (proj2 (chart_series one_answer))) 0%nat _ eq_refl)))
             500%Z); by vm_compute.
Defined.

(** ** The drill-down object in enumeration order *)












Lemma elem_of_selected_subtree_keys (selectedQuestions : list string)
    (params : Params) (paramKey : string) :
  paramKey ∈ (selected_subtree selectedQuestions params).*1 ->
  paramKey ∈ params.*1.
Proof.
  unfold selected_subtree. intros Hin.
  apply list_elem_of_fmap in Hin as ([k kept] & -> & Hin).
  apply list_elem_of_omap in Hin as ([k' questions] & Hin & Hkept).
  cbn [fst snd] in Hkept.
  destruct (selected_questions selectedQuestions questions); [done|].
  injection Hkept as <- _. apply list_elem_of_fmap. by exists (k', questions).
Qed.




(** ** A selection without any question of the dataset *)

Lemma Array_sort_ties (total : nat) (l : list ModelSummary) :
  Forall (fun s => totalResponses s = total) l ->
  Array_sort by_total_descending l = l.
Proof.
  induction 1 as [|s l Hs Hl IH]; [done|].
  unfold Array_sort in *. cbn [foldr]. rewrite IH.
  destruct Hl as [|s' l Hs' Hl]; [done|]. cbn [insert_sorted].
  unfold by_total_descending. rewrite Hs, Hs', Z.sub_diag. done.
Qed.

(** X13. When a selection that is not empty holds no question of the
    dataset, every model stays in the table, in the order of the dataset,
    with a total of zero, both scores shown as [0] and nothing to drill
    into. *)
Theorem selection_without_match (models : Models) (selectedQuestions : list string) :
  selectedQuestions ≠ [] ->
  (forall question,
     question ∈ uniqueQuestions models -> question ∉ selectedQuestions) ->
  modelsMetrics models selectedQuestions
  = (fun entry : string * Params =>
       {| modelName := entry.1;
          totalResponses := 0;
          totalCoherence := "0";
          totalDissimilarity := "0";
          filteredData := ∅ |}) <$> models.
Proof.
  intros Hne Hnone. unfold modelsMetrics. rewrite metrics_map.
  rewrite (Array_sort_ties 0).
  - apply Forall_fmap_ext, Forall_forall. intros [name params] Hin.
    unfold summarize. rewrite visit_params_no_match; [done|].
    intros paramKey questions question responses Hp Hq.
    apply not_true_is_false. rewrite matches_nonempty by done.
    apply Hnone, elem_of_uniqueQuestions.
    by exists name, params, paramKey, questions, responses.
  - apply Forall_fmap, Forall_forall. intros [name params] Hin.
    unfold compose, summarize. rewrite visit_params_no_match; [done|].
    intros paramKey questions question responses Hp Hq.
    apply not_true_is_false. rewrite matches_nonempty by done.
    apply Hnone, elem_of_uniqueQuestions.
    by exists name, params, paramKey, questions, responses.
Qed.

Lemma selection_without_match_witness :
  (fun s => (modelName s, totalResponses s, totalCoherence s, totalDissimilarity s))
  <$> modelsMetrics sample_models ["Q9"%string]
  = [ ("openai/gpt-4", 0, "0", "0"); ("anthropic/claude", 0, "0", "0");
      ("google/gemini", 0, "0", "0") ]%string.
Proof.
  rewrite (selection_without_match sample_models ["Q9"%string]).
  - reflexivity.
  - discriminate.
  - intros question Hq. vm_compute uniqueQuestions in Hq.
    rewrite !elem_of_cons, elem_of_nil in Hq. rewrite list_elem_of_singleton.
    destruct Hq as [->|[->|[]]]; discriminate.
Defined.

(** ** The bar stays within the row *)

#[local] Open Scope Z_scope.

Lemma digits2_pos_size (p : positive) : digits2_pos p = Pos.size p.
Proof. induction p as [p IH|p IH|]; cbn [digits2_pos Pos.size]; congruence. Qed.

Lemma Zdigits2_log2 (p : positive) : Zdigits2 (Zpos p) = Z.log2 (Zpos p) + 1.
Proof.
  cbn [Zdigits2]. rewrite digits2_pos_size.
  destruct p; cbn [Z.log2 Pos.size]; lia.
Qed.

(** A number below [2^d] has at most [d] binary digits. *)
Lemma Zdigits2_le (m d : Z) : 0 <= m -> 0 <= d -> m < 2 ^ d -> Zdigits2 m <= d.
Proof.
  intros Hm Hd Hlt. destruct m as [|p|p]; [done| |lia].
  rewrite Zdigits2_log2.
  enough (Z.log2 (Zpos p) < d) by lia. by apply Z.log2_lt_pow2.
Qed.

Lemma shr_1_m (mrs : shr_record) :
  0 <= shr_m mrs -> shr_m (shr_1 mrs) = shr_m mrs / 2.
Proof.
  destruct mrs as [m r s]. cbn [shr_m shr_1].
  destruct m as [|[p|p|]|p]; cbn [shr_m]; intros Hm; try lia;
    Z.to_euclidean_division_equations; lia.
Qed.

Lemma iter_pos_shr_1 (p : positive) (mrs : shr_record) :
  0 <= shr_m mrs ->
  shr_m (SpecFloat.iter_pos shr_1 p mrs) = shr_m mrs / 2 ^ Zpos p.
Proof.
  assert (forall m k, 0 <= m -> 0 < k -> 0 <= m / k) as Hnonneg
    by (intros m k Hm Hk; by apply Z.div_pos).
  assert (0 < 2 ^ Zpos p) as Hpow by (by apply Z.pow_pos_nonneg).
  revert mrs. induction p as [p IH|p IH|]; intros mrs Hm;
    cbn [SpecFloat.iter_pos].
  - specialize (IH ltac:(by apply Z.pow_pos_nonneg)).
    assert (0 < 2 ^ Zpos p) as Hp by (by apply Z.pow_pos_nonneg).
    assert (shr_m (shr_1 mrs) = shr_m mrs / 2) as H1 by (by apply shr_1_m).
    assert (0 <= shr_m (shr_1 mrs)) as H1' by (rewrite H1; apply Hnonneg; lia).
    pose proof (IH (shr_1 mrs) H1') as H2.
    assert (0 <= shr_m (SpecFloat.iter_pos shr_1 p (shr_1 mrs))) as H2'
      by (rewrite H2; by apply Hnonneg).
    rewrite (IH _ H2'), H2, H1, !Z.div_div by lia. f_equal.
    rewrite (Pos2Z.inj_xI p).
    replace (2 * Zpos p + 1) with (1 + Zpos p + Zpos p) by lia.
    rewrite !Z.pow_add_r by lia. change (2 ^ 1) with 2. lia.
  - specialize (IH ltac:(by apply Z.pow_pos_nonneg)).
    assert (0 < 2 ^ Zpos p) as Hp by (by apply Z.pow_pos_nonneg).
    pose proof (IH mrs Hm) as H2.
    assert (0 <= shr_m (SpecFloat.iter_pos shr_1 p mrs)) as H2'
      by (rewrite H2; by apply Hnonneg).
    rewrite (IH _ H2'), H2, Z.div_div by lia. f_equal.
    rewrite (Pos2Z.inj_xO p).
    replace (2 * Zpos p) with (Zpos p + Zpos p) by lia.
    by rewrite Z.pow_add_r by lia.
  - by apply shr_1_m.
Qed.

(** A shift to the right by [n] places divides the mantissa by [2^n] and
    adds [n] to the exponent; there is no shift to the left. *)
Lemma shr_spec (m : Z) (l : location) (e n : Z) :
  0 <= m ->
  shr_m (shr (shr_record_of_loc m l) e n).1 = m / 2 ^ Z.max 0 n /\
  (shr (shr_record_of_loc m l) e n).2 = e + Z.max 0 n.
Proof.
  intros Hm.
  assert (shr_m (shr_record_of_loc m l) = m) as Hrecord
    by (by destruct l as [|[]]).
  destruct n as [|n|n]; cbn [shr fst snd].
  - rewrite Hrecord, Z.div_1_r. split; [done|lia].
  - rewrite iter_pos_shr_1 by lia. rewrite Hrecord.
    replace (Z.max 0 (Zpos n)) with (Zpos n) by lia. done.
  - rewrite Hrecord, Z.div_1_r. split; [done|lia].
Qed.

Lemma round_nearest_even_bounds (m : Z) (l : location) :
  m <= round_nearest_even m l <= m + 1.
Proof.
  destruct l as [|[]]; cbn [round_nearest_even]; try lia.
  destruct (Z.even m); lia.
Qed.

(** Rounding does not cross a number that the format can hold: a value
    below [T * 2^t], for a mantissa [T] of at most 53 bits and an exponent
    [t] of the format, rounds to at most [T * 2^t]. *)
Lemma binary_round_aux_le (m e T t : Z) (loc : location) :
  0 <= m -> 0 < T < 2 ^ 53 -> -1074 <= t <= 971 -> e <= t ->
  m < T * 2 ^ (t - e) ->
  binary_round_aux 53 1024 false m e loc = S754_zero false \/
  exists (p : positive) (e3 : Z),
    binary_round_aux 53 1024 false m e loc = S754_finite false p e3 /\
    e3 <= t /\ Zpos p <= T * 2 ^ (t - e3).
Proof.
  intros Hm HT Ht He Hlt.
  assert (forall a x, 0 <= a -> x <= t -> a <= T * 2 ^ (t - x) ->
            fexp 53 1024 (Zdigits2 a + x) <= t) as Hfexp.
  { intros a x Ha Hx Hle. unfold fexp, emin.
    enough (Zdigits2 a <= 53 + (t - x)) by lia.
    apply Zdigits2_le; [done|lia|]. rewrite Z.pow_add_r by lia.
    assert (0 < 2 ^ (t - x)) by (apply Z.pow_pos_nonneg; lia). nia. }
  assert (forall a x k, 0 <= a -> 0 <= k -> x + k <= t ->
            a <= T * 2 ^ (t - x) -> a / 2 ^ k <= T * 2 ^ (t - (x + k)))
    as Hshift.
  { intros a x k Ha Hk Hx Hle.
    assert (0 < 2 ^ k) as Hpos by (apply Z.pow_pos_nonneg; lia).
    replace (t - x) with (t - (x + k) + k) in Hle by lia.
    rewrite Z.pow_add_r in Hle by lia.
    apply Z.div_le_upper_bound; [done|]. lia. }
  unfold binary_round_aux, shr_fexp.
  set (n1 := fexp 53 1024 (Zdigits2 m + e) - e).
  destruct (shr_spec m loc e n1 Hm) as [Hm1 He1].
  destruct (shr (shr_record_of_loc m loc) e n1) as [mrs1 e1].
  cbn [fst snd] in Hm1, He1.
  assert (e1 <= t) as He1t.
  { subst e1 n1. pose proof (Hfexp m e Hm He ltac:(lia)). lia. }
  assert (0 <= shr_m mrs1) as Hm1pos.
  { rewrite Hm1. apply Z.div_pos; [done|]. apply Z.pow_pos_nonneg; lia. }
  assert (shr_m mrs1 < T * 2 ^ (t - e1)) as Hm1lt.
  { rewrite Hm1, He1.
    assert (0 < 2 ^ Z.max 0 n1) as Hpos by (apply Z.pow_pos_nonneg; lia).
    apply Z.div_lt_upper_bound; [done|].
    replace (t - e) with (Z.max 0 n1 + (t - (e + Z.max 0 n1))) in Hlt by lia.
    rewrite Z.pow_add_r in Hlt by lia. lia. }
  pose proof (round_nearest_even_bounds (shr_m mrs1) (loc_of_shr_record mrs1))
    as Hround.
  set (m2 := round_nearest_even (shr_m mrs1) (loc_of_shr_record mrs1)) in *.
  set (n2 := fexp 53 1024 (Zdigits2 m2 + e1) - e1).
  destruct (shr_spec m2 loc_Exact e1 n2 ltac:(lia)) as [Hm3 He3].
  destruct (shr (shr_record_of_loc m2 loc_Exact) e1 n2) as [mrs3 e3].
  cbn [fst snd] in Hm3, He3.
  assert (e3 <= t) as He3t.
  { subst e3 n2. pose proof (Hfexp m2 e1 ltac:(lia) He1t ltac:(lia)). lia. }
  assert (0 <= shr_m mrs3) as Hm3pos.
  { rewrite Hm3. apply Z.div_pos; [lia|]. apply Z.pow_pos_nonneg; lia. }
  assert (shr_m mrs3 <= T * 2 ^ (t - e3)) as Hm3le.
  { rewrite Hm3, He3. apply Hshift; lia. }
  destruct (shr_m mrs3) as [|p|p]; [by left| |lia].
  right. exists p, e3. change (1024 - 53) with 971.
  destruct (Z.leb_spec e3 971); [done|lia].
Qed.

(** The quotient of two whole numbers, the smaller by the larger, is below
    one. *)
Lemma div_below_one (x y : Z) :
  0 < x < y -> y < 2 ^ 52 ->
  Num.div (Num.of_Z x) (Num.of_Z y) = S754_zero false \/
  exists (p : positive) (e3 : Z),
    Num.div (Num.of_Z x) (Num.of_Z y) = S754_finite false p e3 /\
    e3 <= -53 /\ Zpos p <= (2 ^ 53 - 1) * 2 ^ (-53 - e3).
Proof.
  intros Hx Hy.
  destruct (of_Z_exact x ltac:(lia)) as (px & ex & -> & Hex & Hpx).
  destruct (of_Z_exact y ltac:(lia)) as (py & ey & -> & Hey & Hpy).
  unfold Num.div, SFdiv, SFdiv_core_binary. cbn [xorb].
  rewrite !Zdigits2_log2, Hpx, Hpy.
  rewrite !Z.log2_mul_pow2 by lia.
  set (e' := Z.min (fexp Num.prec Num.emax
                      (- ex + Z.log2 x + 1 + ex - (- ey + Z.log2 y + 1 + ey)))
                   (ex - ey)).
  assert (e' <= -53) as He'.
  { subst e'. unfold fexp, emin, Num.prec, Num.emax.
    pose proof (Z.log2_le_mono x y ltac:(lia)). lia. }
  assert (e' <= ex - ey) as Hs by (subst e'; lia).
  set (m' := match ex - ey - e' with
             | 0 => x * 2 ^ (- ex)
             | Zpos _ => Z.shiftl (x * 2 ^ (- ex)) (ex - ey - e')
             | Zneg _ => 0
             end).
  assert (m' = x * 2 ^ (- ex) * 2 ^ (ex - ey - e')) as Hm'.
  { subst m'. destruct (ex - ey - e') as [|s|s] eqn:Hdiff; [|..|lia].
    - by rewrite Z.mul_1_r.
    - by rewrite Z.shiftl_mul_pow2. }
  clearbody m'.
  pose proof (Z.div_eucl_eq m' (y * 2 ^ (- ey))) as Heucl.
  pose proof (Z.mod_pos_bound m' (y * 2 ^ (- ey))) as Hmod.
  unfold Z.modulo in Hmod.
  destruct (Z.div_eucl m' (y * 2 ^ (- ey))) as [q r].
  assert (0 < 2 ^ (- ey)) as Hpey by (apply Z.pow_pos_nonneg; lia).
  assert (0 < 2 ^ (- ex)) as Hpex by (apply Z.pow_pos_nonneg; lia).
  assert (0 < y * 2 ^ (- ey)) as Hden by nia.
  specialize (Heucl ltac:(lia)). specialize (Hmod Hden).
  assert (0 <= q) as Hq by nia.
  apply (binary_round_aux_le q e' (2 ^ 53 - 1) (-53)); try lia.
  (* q * y <= x * 2^(-e') and x <= y - 1 *)
  assert (2 ^ (- ex) * 2 ^ (ex - ey - e') = 2 ^ (- ey) * 2 ^ (- e')) as Hpow.
  { rewrite <- !Z.pow_add_r by lia. f_equal. lia. }
  assert (q * y <= x * 2 ^ (- e')) as Hqy.
  { assert (y * 2 ^ (- ey) * q <= x * 2 ^ (- e') * 2 ^ (- ey)) as Hle.
    { rewrite Hm' in Heucl. rewrite <- Z.mul_assoc, Hpow in Heucl. lia. }
    nia. }
  replace (- e') with (-53 - e' + 53) in Hqy by lia.
  rewrite Z.pow_add_r in Hqy by lia.
  assert (0 < 2 ^ (-53 - e')) as Hpe by (apply Z.pow_pos_nonneg; lia).
  change (2 ^ 53) with 9007199254740992 in *.
  change (2 ^ 52) with 4503599627370496 in *.
  nia.
Qed.

Lemma ratio_within (best : nat) (model : ModelSummary) :
  Z.of_nat best < 2 ^ 52 -> (totalResponses model <= best)%nat ->
  exists r,
    ratio best model = Some r /\
    SFleb Num.zero r = true /\ SFleb r (Num.of_nat 100) = true.
Proof.
  intros Hbound Hle.
  destruct (decide (totalResponses model = 0%nat)) as [Hzero|Hpos].
  { exists Num.zero. by rewrite ratio_of_zero. }
  destruct (decide (totalResponses model = best)) as [Hbest|Hless].
  { exists (Num.of_nat 100). rewrite ratio_of_best by (done || lia).
    split; [done|]. by vm_compute. }
  unfold ratio, checked_div.
  destruct (Nat.eqb_spec best 0) as [->|_]; [lia|]. cbn [negb mbind option_bind].
  eexists. split; [done|].
  change (Num.of_nat (totalResponses model))
    with (Num.of_Z (Z.of_nat (totalResponses model))).
  change (Num.of_nat best) with (Num.of_Z (Z.of_nat best)).
  destruct (div_below_one (Z.of_nat (totalResponses model)) (Z.of_nat best)
              ltac:(lia) Hbound) as [->|(p & e & -> & He & Hp)];
    [by vm_compute|].
  change (Num.of_nat 100)
    with (S754_finite false 7036874417766400 (-46)).
  unfold Num.mul, SFmul, Num.prec, Num.emax. cbn [xorb].
  destruct (binary_round_aux_le (Zpos (p * 7036874417766400)) (e + -46)
              7036874417766400 (-46) loc_Exact)
    as [->|(p' & e' & -> & He' & Hp')]; try done; try lia.
  - rewrite Pos2Z.inj_mul.
    replace (-46 - (e + -46)) with (- e) by lia.
    replace (- e) with (-53 - e + 53) by lia. rewrite Z.pow_add_r by lia.
    assert (0 < 2 ^ (-53 - e)) by (apply Z.pow_pos_nonneg; lia).
    change (2 ^ 53) with 9007199254740992 in *. nia.
  - split; [done|]. unfold SFleb, SFcompare.
    destruct (Z.compare_spec e' (-46)) as [->|Hlt|Hgt]; [|done|lia].
    change (2 ^ (-46 - -46)) with 1 in Hp'. rewrite Z.mul_1_r in Hp'.
    rewrite Pos.compare_cont_spec. cbn [Pos.switch_Eq].
    destruct (Pos.compare_spec p' 7036874417766400) as [->|Hlt|Hgt];
      [done|done|lia].
Qed.

#[local] Close Scope Z_scope.

(** X14. In a table whose best total is below 2^52, the ratio of every row
    is a number from 0 to 100: a bar is never wider than its row. *)
Theorem bar_within_row (models : Models) (selectedQuestions : list string) :
  let ranked := modelsMetrics models selectedQuestions in
  (Z.of_nat (bestTotal ranked) < 2 ^ 52)%Z ->
  Forall (fun model =>
            exists r,
              ratio (bestTotal ranked) model = Some r /\
              SFleb Num.zero r = true /\ SFleb r (Num.of_nat 100) = true)
         ranked.
Proof.
  cbn zeta. intros Hbound.
  pose proof (modelsMetrics_sorted models selectedQuestions) as Hsorted.
  destruct Hsorted as [|first rest Hrest Hfirst]; [constructor|].
  cbn [bestTotal] in *. constructor.
  - by apply ratio_within.
  - eapply Forall_impl; [exact Hfirst|]. intros model Hle. by apply ratio_within.
Qed.

Lemma bar_within_row_witness :
  Forall (fun model =>
            exists r,
              ratio (bestTotal (modelsMetrics sample_models [])) model = Some r /\
              SFleb Num.zero r = true /\ SFleb r (Num.of_nat 100) = true)
         (modelsMetrics sample_models []).
Proof. apply (bar_within_row sample_models []). by vm_compute. Defined.

(** ** The dissimilarity of a response as a percentage *)

#[local] Open Scope Z_scope.

Lemma mul_100_le (m : positive) (e : Z) :
  e <= 0 -> Zpos m <= 2 ^ (- e) ->
  Num.mul (S754_finite false m e) (Num.of_nat 100) = S754_zero false \/
  exists (p : positive) (e3 : Z),
    Num.mul (S754_finite false m e) (Num.of_nat 100) = S754_finite false p e3 /\
    e3 <= -46 /\ Zpos p <= 7036874417766401 * 2 ^ (-46 - e3).
Proof.
  intros He Hm.
  change (Num.of_nat 100) with (S754_finite false 7036874417766400 (-46)).
  unfold Num.mul, SFmul, Num.prec, Num.emax. cbn [xorb].
  apply binary_round_aux_le; try lia.
  rewrite Pos2Z.inj_mul. replace (-46 - (e + -46)) with (- e) by lia.
  assert (0 < 2 ^ (- e)) by (apply Z.pow_pos_nonneg; lia). nia.
Qed.

Lemma from_zero_to_1_finite (m : positive) (e : Z) :
  from_zero_to 1 (S754_finite false m e) -> e <= 0 /\ Zpos m <= 2 ^ (- e).
Proof.
  cbn [from_zero_to]. unfold Num.fraction. rewrite Z.mul_1_l.
  destruct (Z.le_gt_cases e 0) as [He|He].
  - replace (Z.max 0 e) with 0 by lia. replace (Z.max 0 (- e)) with (- e) by lia.
    rewrite Z.mul_1_r. done.
  - replace (Z.max 0 e) with e by lia. replace (Z.max 0 (- e)) with 0 by lia.
    change (2 ^ 0) with 1. intros Hle. exfalso.
    assert (2 ^ 1 <= 2 ^ e) by (apply Z.pow_le_mono_r; lia).
    change (2 ^ 1) with 2 in *. nia.
Qed.

(** X15. For a dissimilarity score from 0 to 1, the percentage that the
    chart plots and the row of the response shows is a number of tenths from
    0 to 100: it prints with one decimal, or with none when that decimal is
    zero. *)
Theorem dissimilarity_percent_range (score : Num.number) :
  from_zero_to 1 score ->
  exists t : Z,
    nearest_tenths (Num.mul score (Num.of_nat 100)) = Some t /\
    0 <= t <= 1000 /\
    Num.toString (dissimilarityPercent score) = render_tenths t.
Proof.
  intros Hscore.
  assert (exists t : Z,
            nearest_tenths (Num.mul score (Num.of_nat 100)) = Some t /\
            0 <= t <= 1000) as (t & Ht & Hrange).
  { destruct score as [s|s| |[] m e]; try done.
    - exists 0. by destruct s.
    - destruct (from_zero_to_1_finite m e Hscore) as [He Hm].
      destruct (mul_100_le m e He Hm) as [->|(p & e3 & -> & He3 & Hp)].
      + by exists 0.
      + eexists. split; [done|]. unfold Num.fixed_digits.
        rewrite fraction_nonpos by lia. rewrite Z.mul_1_l.
        assert (0 < 2 ^ (- e3)) as Hq by (apply Z.pow_pos_nonneg; lia).
        replace (- e3) with (-46 - e3 + 46) in * by lia.
        rewrite Z.pow_add_r in * by lia.
        assert (0 < 2 ^ (-46 - e3)) by (apply Z.pow_pos_nonneg; lia).
        change (2 ^ 46) with 70368744177664 in *. change (10 ^ Z.of_nat 1) with 10.
        split.
        * apply Z.div_pos; lia.
        * apply Z.lt_succ_r, Z.div_lt_upper_bound; [lia|]. nia. }
  exists t. split; [done|]. split; [done|].
  apply toString_parseFloat_toFixed; [done|]. change (2 ^ 47) with 140737488355328.
  lia.
Qed.

Lemma dissimilarity_percent_range_witness :
  exists t : Z,
    nearest_tenths (Num.mul (Num.literal false 25 (-2)) (Num.of_nat 100)) = Some t /\
    0 <= t <= 1000 /\
    Num.toString (dissimilarityPercent (Num.literal false 25 (-2)))
    = render_tenths t.
Proof.
  apply (dissimilarity_percent_range (Num.literal false 25 (-2))).
  by vm_compute.
Defined.

#[local] Close Scope Z_scope.

(** ** The totals of scores within bounds *)

#[local] Open Scope Z_scope.

Lemma Pos_iter_xO (m d : positive) :
  Zpos (Pos.iter xO m d) = Zpos m * 2 ^ Zpos d.
Proof.
  induction d as [|d IH] using Pos.peano_ind.
  - cbn [Pos.iter]. rewrite (Pos2Z.inj_xO m). change (2 ^ 1) with 2. lia.
  - rewrite Pos.iter_succ, Pos2Z.inj_xO, IH, Pos2Z.inj_succ, Z.pow_succ_r by lia.
    lia.
Qed.

(** The alignment of a mantissa to a lower exponent keeps the value. *)
Lemma shl_align_spec (mx : positive) (ex ex' : Z) :
  (shl_align mx ex ex').2 = Z.min ex ex' /\
  Zpos (shl_align mx ex ex').1 = Zpos mx * 2 ^ (ex - Z.min ex ex').
Proof.
  unfold shl_align. destruct (ex' - ex) as [|d|d] eqn:Hd; cbn [fst snd].
  - replace (Z.min ex ex') with ex by lia. rewrite Z.sub_diag. lia.
  - replace (Z.min ex ex') with ex by lia. rewrite Z.sub_diag. lia.
  - replace (Z.min ex ex') with ex' by lia. split; [done|].
    rewrite Pos_iter_xO. do 2 f_equal. lia.
Qed.

Lemma from_zero_to_finite (bound : Z) (m : positive) (e : Z) :
  from_zero_to bound (S754_finite false m e) <->
  Zpos m * 2 ^ Z.max 0 e <= bound * 2 ^ Z.max 0 (- e).
Proof. done. Qed.

Lemma from_zero_to_nonneg (bound : Z) (x : Num.number) :
  from_zero_to bound x -> 0 <= bound.
Proof.
  destruct x as [s|s| |[] m e]; try done. rewrite from_zero_to_finite.
  intros Hle.
  assert (0 < 2 ^ Z.max 0 e) by (apply Z.pow_pos_nonneg; lia).
  assert (0 < 2 ^ Z.max 0 (- e)) by (apply Z.pow_pos_nonneg; lia). nia.
Qed.

Lemma from_zero_to_mono (bound bound' : Z) (x : Num.number) :
  bound <= bound' -> from_zero_to bound x -> from_zero_to bound' x.
Proof.
  intros Hle. destruct x as [s|s| |[] m e]; try done.
  - cbn [from_zero_to]. lia.
  - rewrite !from_zero_to_finite.
    assert (0 < 2 ^ Z.max 0 (- e)) by (apply Z.pow_pos_nonneg; lia). nia.
Qed.

(** The rounding of a positive value below a whole number [T] of at most
    53 bits is at most [T]. *)
Lemma binary_round_le (m : positive) (e T : Z) :
  0 < T < 2 ^ 53 ->
  Zpos m * 2 ^ Z.max 0 e < T * 2 ^ Z.max 0 (- e) ->
  from_zero_to T (binary_round 53 1024 false m e).
Proof.
  intros HT Hlt. unfold binary_round.
  change (Zpos (digits2_pos m)) with (Zdigits2 (Zpos m)).
  set (e' := fexp 53 1024 (Zdigits2 (Zpos m) + e)).
  destruct (shl_align_spec m e e') as [Hez Hmz].
  destruct (shl_align m e e') as [mz ez]. cbn [fst snd] in Hez, Hmz.
  assert (0 < 2 ^ Z.max 0 e) as Hpe by (apply Z.pow_pos_nonneg; lia).
  assert (0 < 2 ^ Z.max 0 (- e)) as Hpe' by (apply Z.pow_pos_nonneg; lia).
  assert (Zpos m < 2 ^ (53 - e)) as Hm.
  { destruct (Z.le_gt_cases e 0) as [He|He].
    - replace (Z.max 0 e) with 0 in * by lia.
      replace (Z.max 0 (- e)) with (- e) in * by lia.
      replace (53 - e) with (53 + - e) by lia. rewrite Z.pow_add_r by lia. nia.
    - replace (Z.max 0 e) with e in * by lia.
      replace (Z.max 0 (- e)) with 0 in * by lia.
      change (2 ^ 0) with 1 in *.
      destruct (Z.le_gt_cases e 53) as [He'|He'].
      + assert (2 ^ 53 = 2 ^ (53 - e) * 2 ^ e) as Hsplit.
        { rewrite <- Z.pow_add_r by lia. f_equal. lia. }
        nia.
      + assert (2 ^ 53 <= 2 ^ e) by (apply Z.pow_le_mono_r; lia). nia. }
  assert (e' <= 0) as He'.
  { subst e'. unfold fexp, emin.
    enough (Zdigits2 (Zpos m) <= 53 - e) by lia.
    destruct (Z.le_gt_cases e 53) as [He|He].
    - apply Zdigits2_le; [lia|lia|done].
    - rewrite Z.pow_neg_r in Hm by lia. lia. }
  assert (ez <= 0) as Hez0 by lia.
  assert (Zpos mz < T * 2 ^ (0 - ez)) as Hbound.
  { rewrite Hmz, <- Hez.
    assert (0 < 2 ^ (e - ez)) by (apply Z.pow_pos_nonneg; lia).
    destruct (Z.le_gt_cases e 0) as [He|He].
    - replace (Z.max 0 e) with 0 in * by lia.
      replace (Z.max 0 (- e)) with (- e) in * by lia.
      replace (0 - ez) with (- e + (e - ez)) by lia.
      rewrite Z.pow_add_r by lia. nia.
    - replace (Z.max 0 e) with e in * by lia.
      replace (Z.max 0 (- e)) with 0 in * by lia.
      replace (e - ez) with (e + (0 - ez)) by lia.
      assert (0 < 2 ^ (0 - ez)) by (apply Z.pow_pos_nonneg; lia).
      rewrite Z.pow_add_r by lia. change (2 ^ 0) with 1 in *. nia. }
  destruct (binary_round_aux_le (Zpos mz) ez T 0 loc_Exact)
    as [->|(p & e3 & -> & He3 & Hp)]; try lia.
  - cbn [from_zero_to]. lia.
  - apply from_zero_to_finite.
    replace (Z.max 0 e3) with 0 by lia. replace (Z.max 0 (- e3)) with (- e3) by lia.
    replace (0 - e3) with (- e3) in Hp by lia. lia.
Qed.

Lemma pow2_aligned (v ez : Z) :
  ez <= v ->
  2 ^ (v - ez) * 2 ^ Z.max 0 ez * 2 ^ Z.max 0 (- v)
  = 2 ^ Z.max 0 v * 2 ^ Z.max 0 (- ez).
Proof. intros Hv. rewrite <- !Z.pow_add_r by lia. f_equal. lia. Qed.

(** The value of a mantissa aligned to a lower exponent [ez] keeps its
    bound. *)
Lemma aligned_le (bound : Z) (m : positive) (e ez : Z) :
  ez <= e ->
  Zpos m * 2 ^ Z.max 0 e <= bound * 2 ^ Z.max 0 (- e) ->
  Zpos m * 2 ^ (e - ez) * 2 ^ Z.max 0 ez <= bound * 2 ^ Z.max 0 (- ez).
Proof.
  intros Hez Hle.
  assert (0 < 2 ^ Z.max 0 (- e)) as Hpos by (apply Z.pow_pos_nonneg; lia).
  assert (0 <= 2 ^ Z.max 0 (- ez)) as Hpos'
    by (apply Z.lt_le_incl, Z.pow_pos_nonneg; lia).
  pose proof (pow2_aligned e ez Hez) as Hpow.
  apply (Z.mul_le_mono_pos_r _ _ (2 ^ Z.max 0 (- e))); [done|].
  apply (Z.mul_le_mono_nonneg_r _ _ (2 ^ Z.max 0 (- ez))) in Hle; [|done].
  replace (Zpos m * 2 ^ (e - ez) * 2 ^ Z.max 0 ez * 2 ^ Z.max 0 (- e))
    with (Zpos m * (2 ^ (e - ez) * 2 ^ Z.max 0 ez * 2 ^ Z.max 0 (- e)))
    by ring.
  rewrite Hpow. clear - Hle. lia.
Qed.

(** The sum of two numbers from 0 to [a] and from 0 to [b] is a number
    from 0 to [a + b + 1]: the rounding of a sum does not cross a whole
    number. *)
Lemma add_from_zero_to (a b : Z) (x y : Num.number) :
  from_zero_to a x -> from_zero_to b y -> a + b + 1 < 2 ^ 53 ->
  from_zero_to (a + b + 1) (Num.add x y).
Proof.
  intros Hx Hy Hbound.
  pose proof (from_zero_to_nonneg a x Hx) as Ha.
  pose proof (from_zero_to_nonneg b y Hy) as Hb.
  destruct x as [sx|sx| |[] mx ex]; try done;
    destruct y as [sy|sy| |[] my ey]; try done.
  - unfold Num.add, SFadd. destruct sx, sy; cbn [from_zero_to]; lia.
  - apply (from_zero_to_mono b); [lia|done].
  - apply (from_zero_to_mono a); [lia|done].
  - unfold Num.add, SFadd, Num.prec, Num.emax. cbn [cond_Zopp].
    set (ez := Z.min ex ey).
    destruct (shl_align_spec mx ex ez) as [_ Hmx].
    destruct (shl_align_spec my ey ez) as [_ Hmy].
    assert (ez <= ex) as Hex by apply Z.le_min_l.
    assert (ez <= ey) as Hey by apply Z.le_min_r.
    rewrite (Z.min_r ex ez Hex) in Hmx. rewrite (Z.min_r ey ez Hey) in Hmy.
    set (mx' := (shl_align mx ex ez).1) in *.
    set (my' := (shl_align my ey ez).1) in *.
    change (Zpos mx' + Zpos my') with (Zpos (mx' + my')).
    cbn [binary_normalize]. apply binary_round_le; [lia|].
    rewrite Pos2Z.inj_add, Hmx, Hmy.
    apply from_zero_to_finite in Hx, Hy.
    pose proof (aligned_le a mx ex ez Hex Hx) as Hxa.
    pose proof (aligned_le b my ey ez Hey Hy) as Hyb.
    assert (0 < 2 ^ Z.max 0 (- ez)) as Hpos by (apply Z.pow_pos_nonneg; lia).
    clear - Hxa Hyb Hpos. lia.
Qed.

(** A running sum of [n] scores from 0 to [c] is a number from 0 to
    [(c + 1) * n]. *)
Lemma sum_from_zero_to (c : Z) (score : Response -> Num.number)
    (rs : list Response) (acc : Num.number) (bound : Z) :
  0 <= c ->
  Forall (fun r => from_zero_to c (score r)) rs ->
  from_zero_to bound acc ->
  bound + (c + 1) * Z.of_nat (length rs) < 2 ^ 53 ->
  from_zero_to (bound + (c + 1) * Z.of_nat (length rs))
    (foldl Num.add acc (score <$> rs)).
Proof.
  intros Hc Hrs. revert acc bound.
  induction Hrs as [|r rs Hr Hrs IH]; intros acc bound Hacc Hbound.
  - cbn [length foldl fmap list_fmap]. by rewrite Z.mul_0_r, Z.add_0_r.
  - rewrite fmap_cons. cbn [foldl length] in *. rewrite Nat2Z.inj_succ in *.
    pose proof (from_zero_to_nonneg bound acc Hacc).
    replace (bound + (c + 1) * Z.succ (Z.of_nat (length rs)))
      with (bound + c + 1 + (c + 1) * Z.of_nat (length rs)) in * by lia.
    apply IH; [|done]. apply add_from_zero_to; [done|done|lia].
Qed.

Lemma nearest_integer_from_zero_to (bound : Z) (x : Num.number) :
  from_zero_to bound x ->
  exists r, nearest_integer x = Some r /\ 0 <= r <= bound.
Proof.
  destruct x as [s|s| |[] m e]; try done.
  - intros Hb. exists 0. cbn [from_zero_to] in Hb. done.
  - rewrite from_zero_to_finite. intros Hle. eexists. split; [done|].
    pose proof (round_half_up_nearest false m e) as Hnear.
    pose proof (fraction_pos m e) as [HP HQ].
    unfold Num.fraction in Hnear, HP, HQ. cbn [fst snd] in HP, HQ.
    set (r := Num.round_half_up false m e) in *. nia.
Qed.

Lemma nearest_tenths_from_zero_to (bound : Z) (x : Num.number) :
  from_zero_to bound x ->
  exists t, nearest_tenths x = Some t /\ 0 <= t <= 10 * bound.
Proof.
  destruct x as [s|s| |[] m e]; try done.
  - intros Hb. exists 0. cbn [from_zero_to] in Hb. split; [done|lia].
  - rewrite from_zero_to_finite. intros Hle. eexists. split; [done|].
    pose proof (fixed_digits_nearest m e) as Hnear.
    pose proof (fraction_pos m e) as [HP HQ].
    unfold Num.fraction in Hnear, HP, HQ. cbn [fst snd] in HP, HQ.
    set (t := Num.fixed_digits m e 1) in *. nia.
Qed.

#[local] Close Scope Z_scope.

(** X16. When the coherence scores of the responses of a model that pass
    the filter are numbers from 0 to a bound [c], their dissimilarity
    scores numbers from 0 to 1, and [c + 1] times their count is at most
    2^46, the two totals of the model are shown as the policy says: the
    summed coherence as the nearest whole number without a decimal point,
    the summed dissimilarity as the nearest number of tenths, with one
    decimal or with none when that decimal is zero. *)
Theorem formatting_of_bounded_scores (models : Models)
    (selectedQuestions : list string) (c : Z) (name : string) (params : Params) :
  (name, params) ∈ models ->
  Forall (fun r =>
            from_zero_to c (coherence_score r) /\
            from_zero_to 1 (embedding_dissimilarity_score r))
         (included selectedQuestions params) ->
  included selectedQuestions params ≠ [] ->
  ((c + 1) * Z.of_nat (length (included selectedQuestions params)) <= 2 ^ 46)%Z ->
  exists (s : ModelSummary) (r t : Z),
    s ∈ modelsMetrics models selectedQuestions /\
    modelName s = name /\
    totalResponses s = length (included selectedQuestions params) /\
    nearest_integer (sum_scores coherence_score (included selectedQuestions params))
    = Some r /\
    nearest_tenths
      (sum_scores embedding_dissimilarity_score (included selectedQuestions params))
    = Some t /\
    (0 <= r <= (c + 1) * Z.of_nat (length (included selectedQuestions params)))%Z /\
    (0 <= t <= 20 * Z.of_nat (length (included selectedQuestions params)))%Z /\
    totalCoherence s = render_integer r /\
    totalDissimilarity s = render_tenths t.
Proof.
  intros Hin Hscores Hne Hcount.
  destruct (summarize_fields selectedQuestions name params)
    as (Hname & Htotal & Hcoherence & Hdissimilarity).
  cbn zeta in *. set (kept := included selectedQuestions params) in *.
  assert (0 <= c)%Z as Hc.
  { destruct Hscores as [|r rs [Hr _] _]; [done|].
    by apply (from_zero_to_nonneg c (coherence_score r)). }
  assert ((0 <? length kept) = true) as Hpos
    by (apply Nat.ltb_lt; destruct kept; [done|cbn [length]; lia]).
  rewrite Hpos in Hcoherence, Hdissimilarity.
  assert (2 ^ 46 = 70368744177664)%Z as H46 by done.
  assert (2 ^ 47 = 140737488355328)%Z as H47 by done.
  assert (Z.of_nat (length kept) <= (c + 1) * Z.of_nat (length kept))%Z
    as Hcount' by nia.
  assert (2 ^ 51 = 2251799813685248)%Z as H51 by done.
  assert (2 ^ 53 = 9007199254740992)%Z as H53 by done.
  assert (from_zero_to ((c + 1) * Z.of_nat (length kept))
            (sum_scores coherence_score kept)) as Hsum1.
  { apply (sum_from_zero_to c coherence_score kept Num.zero 0); [done| |done|lia].
    eapply Forall_impl; [exact Hscores|]. by intros r [? ?]. }
  assert (from_zero_to (2 * Z.of_nat (length kept))
            (sum_scores embedding_dissimilarity_score kept)) as Hsum2.
  { apply (sum_from_zero_to 1 embedding_dissimilarity_score kept Num.zero 0);
      [done| |done|lia].
    eapply Forall_impl; [exact Hscores|]. by intros r [? ?]. }
  destruct (nearest_integer_from_zero_to _ _ Hsum1) as (r & Hr & Hrange).
  destruct (nearest_tenths_from_zero_to _ _ Hsum2) as (t & Ht & Htrange).
  exists (summarize selectedQuestions (name, params)), r, t.
  split; [apply modelsMetrics_elem_of; by exists name, params|].
  split; [done|]. split; [done|]. split; [done|]. split; [done|].
  split; [done|]. split; [lia|]. split.
  - rewrite Hcoherence. apply toString_Math_round; [done|lia].
  - rewrite Hdissimilarity. apply toString_parseFloat_toFixed; [done|lia].
Qed.

Lemma formatting_of_bounded_scores_witness :
  exists (s : ModelSummary) (r t : Z),
    s ∈ modelsMetrics sample_models [] /\
    modelName s = "anthropic/claude"%string /\
    totalResponses s = length (included [] claude_entry.2) /\
    nearest_integer (sum_scores coherence_score (included [] claude_entry.2))
    = Some r /\
    nearest_tenths
      (sum_scores embedding_dissimilarity_score (included [] claude_entry.2))
    = Some t /\
    (0 <= r <= (5 + 1) * Z.of_nat (length (included [] claude_entry.2)))%Z /\
    (0 <= t <= 20 * Z.of_nat (length (included [] claude_entry.2)))%Z /\
    totalCoherence s = render_integer r /\
    totalDissimilarity s = render_tenths t.
Proof.
  apply (formatting_of_bounded_scores sample_models [] 5
           "anthropic/claude"%string claude_entry.2).
  - apply list_elem_of_further, list_elem_of_here.
  - change (included [] claude_entry.2) with two_answers.
    apply Forall_cons. split; [split; by vm_compute|].
    apply Forall_cons. split; [split; by vm_compute|]. by apply Forall_nil.
  - change (included [] claude_entry.2) with two_answers. discriminate.
  - by vm_compute.
Defined.
